(** * ai-vocab-card: the persistence, sync and study-state layer of [app.py]

    A shallow embedding of the Streamlit script [app.py]: the JSON store with
    its timestamped backups, the Notion sync, the sidebar handlers (add,
    delete) and the two study modes (learning, review), followed by the
    properties of the specification stated over that embedding.

    Python dictionaries keep insertion order, and the learning queue depends
    on it, so a dictionary is an association list whose update keeps the
    position of an existing key.  The two directories the script touches are
    finite maps from file name to parsed JSON content.  A script run is a
    state-and-exception computation: an exception (or [st.stop()]) ends the
    run and keeps every mutation made before it. *)

From Stdlib Require Import String Ascii List Arith Lia Bool.
From stdpp Require Import base strings list gmap fin_maps sorting.
Import ListNotations.

Local Open Scope stdpp_scope.

(* ================================================================= *)
(** ** Python dictionaries with string keys *)

Module Dict.
Section Dict.
Context {V : Type}.

(** [d.get(k)], [None] when the key is absent. *)
Fixpoint get (k : string) (d : list (string * V)) : option V :=
  match d with
  | [] => None
  | (k', v) :: r => if decide (k = k') then Some v else get k r
  end.

(** [k in d] *)
Definition mem (k : string) (d : list (string * V)) : bool :=
  match get k d with Some _ => true | None => false end.

(** [d[k] = v]: an existing key keeps its position, a new one goes last. *)
Fixpoint set (k : string) (v : V) (d : list (string * V)) : list (string * V) :=
  match d with
  | [] => [(k, v)]
  | (k', v') :: r =>
      if decide (k = k') then (k', v) :: r else (k', v') :: set k v r
  end.

(** [d1 |= d2] (also [d1.update(d2)]): the items of [d2], in its order. *)
Definition update (d1 d2 : list (string * V)) : list (string * V) :=
  fold_left (fun acc kv => set (fst kv) (snd kv) acc) d2 d1.

(** The dictionary without the key [k]. *)
Definition remove (k : string) (d : list (string * V)) : list (string * V) :=
  List.filter (fun kv => negb (bool_decide (fst kv = k))) d.

(** [d.pop(k)]: the value and the remaining dictionary; [None] stands for
    the [KeyError] of an absent key. *)
Definition pop (k : string) (d : list (string * V)) : option (V * list (string * V)) :=
  match get k d with
  | Some v => Some (v, remove k d)
  | None => None
  end.

(** Iterating a dictionary yields its keys in insertion order. *)
Definition keys (d : list (string * V)) : list string := map fst d.
End Dict.
End Dict.

(* ================================================================= *)
(** ** Data model *)

(** The value stored under a word: [{"meaning": ..., "memo": ...}]. *)
Record WordEntry := mkEntry { meaning : string; memo : string }.

(** [Dict[str, Dict[str, str]]] *)
Abbreviation Words := (list (string * WordEntry)).

(** A row as [fetch_notion_rows] builds it: [{word, meaning, memo}]. *)
Record Row := mkRow { row_word : string; row_meaning : string; row_memo : string }.

(** The parsed content of a store file: [words.json] holds an object,
    [learned_words.json] an array of strings. *)
Inductive json :=
| JObject (ws : Words)
| JArray (ls : list string).

(** A file of [DATA_DIR], as [pathlib] splits its name. *)
Record Path := mkPath { stem : string; suffix : string }.

Definition path_name (p : Path) : string := stem p +:+ suffix p.

Definition WORDS_FILE : Path := mkPath "words" ".json".
Definition LEARNED_FILE : Path := mkPath "learned_words" ".json".

(** What [datetime.datetime.now()] returns, to the second (the format used
    prints nothing finer). *)
Record DateTime := mkDateTime {
  year : nat; month : nat; day : nat;
  hour : nat; minute : nat; second : nat }.

(** The answers of the environment during one save: the clock reading and
    whether [shutil.copy2] into the backup directory goes through. *)
Record Env := mkEnv { now : DateTime; copy_ok : bool }.

Inductive Exn :=
| KeyError (k : string)
| ValueError
| IndexError
| TypeError
| FileNotFoundError (name : string)
| OSError
| TransportError.

(** What the operator sees, and what happens on disk, in order. *)
Inductive Event :=
| EvCopy (src dst : string)
| EvUnlink (name : string)
| EvWrite (name : string) (content : json)
| EvError (status : nat) (code msg : string)
| EvSuccessAdded (word : string)
| EvSuccessDeleted (word : string)
| EvSuccessAllLearned
| EvSuccessNothingToReview
| EvCard (word meaning memo_text : string).

(** [st.session_state] (the two keys the script stores), the two directories
    and the log of events. *)
Record State := mkState {
  ss_words : option Words;
  ss_learned : option (list string);
  files : gmap string json;
  backups : gmap string json;
  trace : list Event }.

(* ================================================================= *)
(** ** Script runs: state, exceptions and [st.stop()] *)

(** How a run (or a part of it) ends: normally, by [st.stop()], by
    [st.rerun()], or by an exception nobody catches. *)
Inductive Outcome (A : Type) :=
| Ok (a : A)
| Stop
| Rerun
| Raise (e : Exn).
Arguments Ok {A} a.
Arguments Stop {A}.
Arguments Rerun {A}.
Arguments Raise {A} e.

Definition M (A : Type) : Type := State -> Outcome A * State.

Definition ret {A} (a : A) : M A := fun s => (Ok a, s).

Definition bind {A B} (m : M A) (f : A -> M B) : M B :=
  fun s =>
    match m s with
    | (Ok a, s') => f a s'
    | (Stop, s') => (Stop, s')
    | (Rerun, s') => (Rerun, s')
    | (Raise e, s') => (Raise e, s')
    end.

Definition raise {A} (e : Exn) : M A := fun s => (Raise e, s).
Definition st_stop {A} : M A := fun s => (Stop, s).
Definition st_rerun {A} : M A := fun s => (Rerun, s).
Definition gets {A} (f : State -> A) : M A := fun s => (Ok (f s), s).
Definition modify (f : State -> State) : M unit := fun s => (Ok tt, f s).

Declare Scope py_scope.
Delimit Scope py_scope with py.
Notation "x <- m ;; k" := (bind m (fun x => k))
  (at level 100, m at next level, right associativity) : py_scope.
Notation "m ;; k" := (bind m (fun _ => k))
  (at level 100, right associativity) : py_scope.
Local Open Scope py_scope.

(** [for x in l: body x] *)
Fixpoint for_each {A} (l : list A) (body : A -> M unit) : M unit :=
  match l with
  | [] => ret tt
  | x :: r => body x ;; for_each r body
  end.

Definition emit (e : Event) : M unit :=
  modify (fun s => mkState (ss_words s) (ss_learned s) (files s) (backups s)
                           (trace s ++ [e])).

Definition set_files (f : gmap string json) : M unit :=
  modify (fun s => mkState (ss_words s) (ss_learned s) f (backups s) (trace s)).

Definition set_backups (b : gmap string json) : M unit :=
  modify (fun s => mkState (ss_words s) (ss_learned s) (files s) b (trace s)).

Definition set_ss_words (w : Words) : M unit :=
  modify (fun s => mkState (Some w) (ss_learned s) (files s) (backups s) (trace s)).

Definition set_ss_learned (l : list string) : M unit :=
  modify (fun s => mkState (ss_words s) (Some l) (files s) (backups s) (trace s)).

(** [st.session_state["words"]] and [st.session_state["learned"]]. *)
Definition get_ss_words : M Words :=
  o <- gets ss_words ;;
  match o with Some w => ret w | None => raise (KeyError "words") end.

Definition get_ss_learned : M (list string) :=
  o <- gets ss_learned ;;
  match o with Some l => ret l | None => raise (KeyError "learned") end.

(* ================================================================= *)
(** ** File-system primitives *)

(** [path.exists()] *)
Definition path_exists (p : Path) : M bool :=
  gets (fun s => bool_decide (is_Some (files s !! path_name p))).

(** [path.write_text(json.dumps(data, ...))] *)
Definition write_text (p : Path) (data : json) : M unit :=
  f <- gets files ;;
  set_files (<[path_name p := data]> f) ;;
  emit (EvWrite (path_name p) data).

(** [shutil.copy2(path, BACKUP_DIR / snap)]: raises when the environment
    refuses the copy, and then nothing was written. *)
Definition copy2 (env : Env) (p : Path) (snap : string) : M unit :=
  if copy_ok env then
    f <- gets files ;;
    match f !! path_name p with
    | Some content =>
        b <- gets backups ;;
        set_backups (<[snap := content]> b) ;;
        emit (EvCopy (path_name p) snap)
    | None => raise (FileNotFoundError (path_name p))
    end
  else raise OSError.

(** [old.unlink(missing_ok=True)] on a file of [BACKUP_DIR]. *)
Definition unlink (name : string) : M unit :=
  b <- gets backups ;;
  set_backups (delete name b) ;;
  emit (EvUnlink name).

(* ================================================================= *)
(** ** Snapshot names *)

Definition digit (n : nat) : ascii := ascii_of_nat (48 + n).

(** Two and four decimal digits, zero padded. *)
Definition d2 (n : nat) : string :=
  String (digit (n / 10)) (String (digit (n mod 10)) EmptyString).

Definition d4 (n : nat) : string := d2 (n / 100) +:+ d2 (n mod 100).

(** [f"{now:%Y-%m-%d_%H%M%S}"]; [%Y] prints four digits for the years 1000
    to 9999, the range [wf_datetime] asks for. *)
Definition strftime (t : DateTime) : string :=
  d4 (year t) +:+ "-" +:+ d2 (month t) +:+ "-" +:+ d2 (day t) +:+ "_"
    +:+ d2 (hour t) +:+ d2 (minute t) +:+ d2 (second t).

Definition wf_datetime (t : DateTime) : Prop :=
  10 * 100 <= year t < 100 * 100 /\ 1 <= month t <= 12 /\ 1 <= day t <= 31 /\
  hour t < 24 /\ minute t < 60 /\ second t < 60.

(** [f"{path.stem}_{now:%Y-%m-%d_%H%M%S}.json"] *)
Definition snap_name (stem_ : string) (t : DateTime) : string :=
  stem_ +:+ "_" +:+ strftime t +:+ ".json".

(** [s] without its prefix [p], when it starts with [p]. *)
Fixpoint strip_prefix (p s : string) : option string :=
  match p, s with
  | EmptyString, _ => Some s
  | String a p', String b s' =>
      if Ascii.eqb a b then strip_prefix p' s' else None
  | String _ _, EmptyString => None
  end.

(** Does [s] end with [suf]? *)
Fixpoint ends_with (suf s : string) : bool :=
  String.eqb s suf ||
  match s with
  | EmptyString => false
  | String _ r => ends_with suf r
  end.

(** Does a file name match the pattern [f"{stem}_*.json"]?  (The stems of
    the script contain no pattern character.) *)
Definition glob_match (stem_ name : string) : bool :=
  match strip_prefix (stem_ +:+ "_") name with
  | Some rest => ends_with ".json" rest
  | None => false
  end.

(** [sorted(BACKUP_DIR.glob(f"{stem}_*.json"))]: the directory lists its
    entries in no particular order, sorting compares the names. *)
Definition glob_sorted (stem_ : string) (b : gmap string json) : list string :=
  merge_sort String.le (List.filter (glob_match stem_) (elements (dom b))).

(** [snaps[:-keep]]; for [keep = 0] the bound is [-0 = 0] and the slice is
    empty. *)
Definition slice_until_neg {A} (keep : nat) (l : list A) : list A :=
  match keep with
  | 0 => []
  | _ => take (length l - keep) l
  end.

(* ================================================================= *)
(** ** The JSON utilities of [app.py] *)

Definition _trim_backups (stem_ : string) (keep : nat) : M unit :=
  b <- gets backups ;;
  let snaps := glob_sorted stem_ b in
  for_each (slice_until_neg keep snaps) unlink.

Definition _json_dump (env : Env) (path : Path) (data : json) : M unit :=
  ex <- path_exists path ;;
  (if ex : bool then
     let snap := snap_name (stem path) (now env) in
     copy2 env path snap ;;
     _trim_backups (stem path) 5
   else ret tt) ;;
  write_text path data.

(** [load_words] and [load_learned] are declared to return a dictionary and
    a list, and the session state of this model is typed accordingly.  The
    script itself does not check what [json.loads] returns: on a store file
    holding the other kind of value it goes on with that value.  The typed
    session state cannot hold it, so the model covers store files of their
    declared kind (or absent) only: on the other kind the load ends with
    [TypeError], and every statement about a load either assumes
    [stores_well_typed] or assumes that the load succeeded. *)
Definition load_words : M Words :=
  ex <- path_exists WORDS_FILE ;;
  (if ex : bool then ret tt else write_text WORDS_FILE (JObject [])) ;;
  f <- gets files ;;
  match f !! path_name WORDS_FILE with
  | Some (JObject ws) => ret ws
  | Some (JArray _) => raise TypeError
  | None => raise (FileNotFoundError (path_name WORDS_FILE))
  end.

Definition save_words (env : Env) (words : Words) : M unit :=
  _json_dump env WORDS_FILE (JObject words).

Definition load_learned : M (list string) :=
  ex <- path_exists LEARNED_FILE ;;
  (if ex : bool then ret tt else write_text LEARNED_FILE (JArray [])) ;;
  f <- gets files ;;
  match f !! path_name LEARNED_FILE with
  | Some (JArray ls) => ret ls
  | Some (JObject _) => raise TypeError
  | None => raise (FileNotFoundError (path_name LEARNED_FILE))
  end.

Definition save_learned (env : Env) (learned : list string) : M unit :=
  _json_dump env LEARNED_FILE (JArray learned).

(* ================================================================= *)
(** ** Notion sync *)

(** One record of the query result, reduced to what the script reads: for
    each of the three properties, the [plain_text]s of its [title] or
    [rich_text] array, and [None] when the property is missing. *)
Record Page := mkPage {
  prop_word : option (list string);
  prop_mean : option (list string);
  prop_memo : option (list string) }.

(** The fields of an [APIResponseError] the handler reads; [api_message] is
    [e.body["message"]] when the body is a dictionary that has it. *)
Record ApiError := mkApiError {
  api_status : nat; api_code : string;
  api_message : option string; api_str : string }.

(** What [notion.databases.query] does: it returns results, raises
    [APIResponseError], or raises something else (timeout, no connection). *)
Inductive Response :=
| RespResults (results : list Page)
| RespApiError (e : ApiError)
| RespOther.

(** [r["properties"][prop][...][0]["plain_text"]] *)
Definition first_plain_text (prop : string) (p : option (list string)) : M string :=
  match p with
  | None => raise (KeyError prop)
  | Some [] => raise IndexError
  | Some (t :: _) => ret t
  end.

Definition page_row (r : Page) : M Row :=
  w <- first_plain_text "PROP_WORD" (prop_word r) ;;
  m <- first_plain_text "PROP_MEAN" (prop_mean r) ;;
  mm <- match prop_memo r with
        | None => raise (KeyError "PROP_MEMO")
        | Some [] => ret ""
        | Some (t :: _) => ret t
        end ;;
  ret (mkRow w m mm).

(** The loop [for r in results: rows.append({...})]. *)
Fixpoint append_rows (results : list Page) (rows : list Row) : M (list Row) :=
  match results with
  | [] => ret rows
  | r :: rest => row <- page_row r ;; append_rows rest (rows ++ [row])
  end.

Definition fetch_notion_rows (resp : Response) : M (list Row) :=
  results <- match resp with
             | RespResults results => ret results
             | RespApiError e =>
                 let msg := match api_message e with
                            | Some m => m
                            | None => api_str e
                            end in
                 emit (EvError (api_status e) (api_code e) msg) ;;
                 st_stop
             | RespOther => raise TransportError
             end ;;
  append_rows results [].

(** The dictionary the loop of [sync_from_notion] builds from the rows. *)
Definition rows_to_words (rows : list Row) : Words :=
  fold_left
    (fun words entry =>
       Dict.set (row_word entry) (mkEntry (row_meaning entry) (row_memo entry)) words)
    rows [].

Definition sync_from_notion (resp : Response) (env : Env) : M Words :=
  rows <- fetch_notion_rows resp ;;
  let words := rows_to_words rows in
  save_words env words ;;
  ret words.

(** [st.session_state["words"] |= sync_from_notion()]: the target is read
    first, then the right-hand side runs, then the update is stored. *)
Definition merge_sync (resp : Response) (env : Env) : M unit :=
  local <- get_ss_words ;;
  remote <- sync_from_notion resp env ;;
  set_ss_words (Dict.update local remote).

(** The two loads that open the initialisation block. *)
Definition load_session : M unit :=
  ws <- load_words ;;
  set_ss_words ws ;;
  ls <- load_learned ;;
  set_ss_learned ls.

(** The block [if "words" not in st.session_state: ...]. *)
Definition session_init (resp : Response) (env : Env) : M unit :=
  o <- gets ss_words ;;
  match o with
  | None => load_session ;; merge_sync resp env
  | Some _ => ret tt
  end.

(* ================================================================= *)
(** ** Sidebar handlers *)

(** The truth value of a string: every string but the empty one. *)
Definition truthy (s : string) : bool := negb (String.eqb s "").

(** [if add_clicked and new_word and new_mean: ...] *)
Definition add_handler (env : Env)
    (new_word new_mean new_memo : string) (add_clicked : bool) : M unit :=
  if add_clicked && truthy new_word && truthy new_mean then
    ws <- get_ss_words ;;
    set_ss_words (Dict.set new_word (mkEntry new_mean new_memo) ws) ;;
    ws' <- get_ss_words ;;
    save_words env ws' ;;
    emit (EvSuccessAdded new_word)
  else ret tt.

(** [if del_clicked and del_target in st.session_state["words"]: ...]; the
    select box yields [None] when it has no options. *)
Definition delete_handler (env1 env2 : Env)
    (del_target : option string) (del_clicked : bool) : M unit :=
  present <- (if del_clicked then
                ws <- get_ss_words ;;
                ret (match del_target with
                     | Some t => Dict.mem t ws
                     | None => false
                     end)
              else ret false) ;;
  match present, del_target with
  | true, Some t =>
      ws <- get_ss_words ;;
      match Dict.pop t ws with
      | Some (_, ws') => set_ss_words ws'
      | None => raise (KeyError t)
      end ;;
      ls <- get_ss_learned ;;
      set_ss_learned (List.filter (fun w => negb (String.eqb w t)) ls) ;;
      ws'' <- get_ss_words ;;
      save_words env1 ws'' ;;
      ls'' <- get_ss_learned ;;
      save_learned env2 ls'' ;;
      emit (EvSuccessDeleted t)
  | _, _ => ret tt
  end.

(* ================================================================= *)
(** ** Study modes *)

(** [w in learned] on a list of strings. *)
Definition in_list (w : string) (l : list string) : bool :=
  existsb (String.eqb w) l.

(** [[w for w in words if w not in learned]] *)
Definition queue (words : Words) (learned : list string) : list string :=
  List.filter (fun w => negb (in_list w learned)) (Dict.keys words).

(** [words[k]] *)
Definition words_item (k : string) (words : Words) : M WordEntry :=
  match Dict.get k words with
  | Some e => ret e
  | None => raise (KeyError k)
  end.

Definition main_card (word : string) (e : WordEntry) : M unit :=
  emit (EvCard word (meaning e) (memo e)).

(** The branch [mode == learning]; [learned] is the list object of the
    session state, so appending to it changes the session state. *)
Definition learning_mode (env : Env) (learned_btn : bool) : M unit :=
  words <- get_ss_words ;;
  learned <- get_ss_learned ;;
  match queue words learned with
  | [] => emit EvSuccessAllLearned ;; st_stop
  | current :: _ =>
      entry <- words_item current words ;;
      main_card current entry ;;
      if learned_btn then
        set_ss_learned (learned ++ [current]) ;;
        ls <- get_ss_learned ;;
        save_learned env ls ;;
        st_rerun
      else ret tt
  end.

(** [l.remove(x)]: the list without the first occurrence of [x]; [None]
    stands for the [ValueError] of an absent [x]. *)
Fixpoint list_remove (x : string) (l : list string) : option (list string) :=
  match l with
  | [] => None
  | y :: r =>
      if String.eqb y x then Some r
      else match list_remove x r with
           | Some r' => Some (y :: r')
           | None => None
           end
  end.

(** What [st.selectbox(label, options)] yields for a non-empty list of
    options: one of them, the first one unless the operator chose another. *)
Definition selectbox (options : list string) (first : string) (choice : nat) : string :=
  nth choice options first.

(** The review card of the word [target] (from [entry = words[target]] on);
    [words] and [learned] are the objects read from the session state. *)
Definition review_card (env : Env) (words : Words) (learned : list string)
    (target : string) (relearn_btn : bool) : M unit :=
  entry <- words_item target words ;;
  main_card target entry ;;
  if relearn_btn then
    match list_remove target learned with
    | Some l' => set_ss_learned l'
    | None => raise ValueError
    end ;;
    ls <- get_ss_learned ;;
    save_learned env ls ;;
    st_rerun
  else ret tt.

(** The branch of the review mode. *)
Definition review_mode (env : Env) (choice : nat) (relearn_btn : bool) : M unit :=
  words <- get_ss_words ;;
  learned <- get_ss_learned ;;
  match learned with
  | [] => emit EvSuccessNothingToReview ;; st_stop
  | first :: _ =>
      review_card env words learned (selectbox learned first choice) relearn_btn
  end.

(* ================================================================= *)
(** ** The rest of the script: search, the delete select box, a whole run *)

(** Does [s] start with [p]? *)
Definition starts_with (p s : string) : bool :=
  match strip_prefix p s with
  | Some _ => true
  | None => false
  end.

(** [needle in hay] on strings: [needle] occurs somewhere in [hay]. *)
Fixpoint contains (needle hay : string) : bool :=
  starts_with needle hay ||
  match hay with
  | EmptyString => false
  | String _ r => contains needle r
  end.

(** [sorted(st.session_state["words"])], the options of the delete select
    box.  The script stores the list in the session state and [sidebar]
    reads it back in the same run, a few lines below. *)
Definition all_words_for_select (ws : Words) : list string :=
  merge_sort String.le (Dict.keys ws).

(** The value of the delete select box: [None] when it has no options. *)
Definition delete_select (options : list string) (choice : nat) : option string :=
  match options with
  | [] => None
  | first :: _ => Some (selectbox options first choice)
  end.

(** What the operator does in one run, and what the environment answers
    to each call that asks it. *)
Record Inputs := mkInputs {
  in_resp : Response;
  in_env_sync : Env;
  in_env_add : Env;
  in_env_del_words : Env;
  in_env_del_learned : Env;
  in_env_study : Env;
  in_add_word : string;
  in_add_mean : string;
  in_add_memo : string;
  in_add_btn : bool;
  in_search : string;
  in_delete_choice : nat;
  in_delete_btn : bool;
  in_review : bool;
  in_learned_btn : bool;
  in_review_choice : nat;
  in_relearn_btn : bool }.

Section Search.

(** [str.lower] is the interpreter's; the search is stated for any such
    function. *)
Variable lower : string -> string.

(** The dictionary comprehension of the search block. *)
Definition search_results (query : string) (words : Words) : Words :=
  List.filter
    (fun wv =>
       contains (lower query) (lower (fst wv)) ||
       contains (lower query) (lower (meaning (snd wv))))
    words.

(** [if query: ...]: the entries found, which the block then prints; [None]
    when the search box is empty. *)
Definition search_handler (query : string) : M (option Words) :=
  if truthy query then
    ws <- get_ss_words ;;
    ret (Some (search_results query ws))
  else ret None.

(** One run of [app.py], top to bottom. *)
Definition script (i : Inputs) : M unit :=
  session_init (in_resp i) (in_env_sync i) ;;
  ws <- get_ss_words ;;
  let options := all_words_for_select ws in
  let del_target := delete_select options (in_delete_choice i) in
  add_handler (in_env_add i) (in_add_word i) (in_add_mean i) (in_add_memo i)
              (in_add_btn i) ;;
  search_handler (in_search i) ;;
  delete_handler (in_env_del_words i) (in_env_del_learned i) del_target
                 (in_delete_btn i) ;;
  if in_review i then
    review_mode (in_env_study i) (in_review_choice i) (in_relearn_btn i)
  else
    learning_mode (in_env_study i) (in_learned_btn i).

End Search.

(* ================================================================= *)
(** ** Notions used by the statements *)

(** The backup directory after the listed files are unlinked. *)
Definition unlink_all (l : list string) (b : gmap string json) : gmap string json :=
  fold_left (fun acc name => delete name acc) l b.

(** The snapshots [_trim_backups stem 5] deletes from the directory [b]. *)
Definition trimmed (stem_ : string) (b : gmap string json) : list string :=
  slice_until_neg 5 (glob_sorted stem_ b).

(** The backup directory after a save over an existing file whose content
    was [old]. *)
Definition backups_after (stem_ : string) (t : DateTime) (old : json)
    (b : gmap string json) : gmap string json :=
  let b1 := <[snap_name stem_ t := old]> b in
  unlink_all (trimmed stem_ b1) b1.

(** The events of the backup step of a save. *)
Definition is_backup_event (e : Event) : Prop :=
  match e with
  | EvCopy _ _ | EvUnlink _ => True
  | _ => False
  end.

(** Comparing field by field, the first difference decides. *)
Definition lex (c1 c2 : comparison) : comparison :=
  match c1 with
  | Eq => c2
  | _ => c1
  end.

(** The order of two clock readings in time. *)
Definition dt_compare (a b : DateTime) : comparison :=
  lex (Nat.compare (year a) (year b))
 (lex (Nat.compare (month a) (month b))
 (lex (Nat.compare (day a) (day b))
 (lex (Nat.compare (hour a) (hour b))
 (lex (Nat.compare (minute a) (minute b))
      (Nat.compare (second a) (second b)))))).

Definition dt_lt (a b : DateTime) : Prop := dt_compare a b = Lt.

(** The shape [dddd-dd-dd_dddddd] of a printed clock reading. *)
Definition is_digit (c : ascii) : bool :=
  (48 <=? nat_of_ascii c) && (nat_of_ascii c <=? 57).

Definition is_stamp (s : string) : bool :=
  match list_ascii_of_string s with
  | [y1; y2; y3; y4; h1; m1; m2; h2; d1; d2_; u; a1; a2; b1; b2; c1; c2] =>
      forallb is_digit [y1; y2; y3; y4; m1; m2; d1; d2_; a1; a2; b1; b2; c1; c2]
      && Ascii.eqb h1 "-" && Ascii.eqb h2 "-" && Ascii.eqb u "_"
  | _ => false
  end.

(** The last [k] elements of a list. *)
Definition lastn {A} (k : nat) (l : list A) : list A := drop (length l - k) l.

(** The range of two decimal digits on which the order of the printed
    numbers is checked by computation. *)
Definition d2_order_check : bool :=
  forallb (fun a =>
    forallb (fun b =>
      match String.compare (d2 a) (d2 b), Nat.compare a b with
      | Eq, Eq | Lt, Lt | Gt, Gt => true
      | _, _ => false
      end) (seq 0 100)) (seq 0 100).

Definition d2_shape_check : bool :=
  forallb (fun a =>
    match d2 a with
    | String x (String y EmptyString) => is_digit x && is_digit y
    | _ => false
    end) (seq 0 100).

(** Consecutive saves of one store, each with the answers of the
    environment at that save and the data to write. *)
Definition saves (p : Path) (l : list (Env * json)) : M unit :=
  for_each l (fun ed => _json_dump (fst ed) p (snd ed)).

(** The snapshot names of a sequence of saves. *)
Definition snap_names (stem_ : string) (l : list (Env * json)) : list string :=
  map (fun ed => snap_name stem_ (now (fst ed))) l.

(** The clock readings of a sequence of saves. *)
Definition save_times (l : list (Env * json)) : list DateTime :=
  map (fun ed => now (fst ed)) l.

(** Each store file is absent or holds a value of its declared kind: an
    object for the words, an array for the learned list. *)
Definition stores_well_typed (s : State) : Prop :=
  (files s !! path_name WORDS_FILE = None \/
   exists ws, files s !! path_name WORDS_FILE = Some (JObject ws)) /\
  (files s !! path_name LEARNED_FILE = None \/
   exists ls, files s !! path_name LEARNED_FILE = Some (JArray ls)).

(** The exceptions that reading a record of the query result can raise. *)
Definition is_record_error (e : Exn) : Prop :=
  e = IndexError \/ exists k, e = KeyError k.

(** The message of an [APIResponseError], as the handler composes it. *)
Definition api_error_event (a : ApiError) : Event :=
  EvError (api_status a) (api_code a)
          (match api_message a with Some m => m | None => api_str a end).

(** Every learned word is a word of the repository. *)
Definition learned_in_words (ws : Words) (ls : list string) : Prop :=
  forall w, In w ls -> In w (Dict.keys ws).

(** A record of the query result that [fetch_notion_rows] can read, and
    the row it gives. *)
Definition row_of_page (p : Page) (r : Row) : Prop :=
  exists w ws m ms mm,
    prop_word p = Some (w :: ws) /\ prop_mean p = Some (m :: ms) /\
    prop_memo p = Some mm /\ r = mkRow w m (hd "" mm).

(** The entry a row puts in the repository. *)
Definition row_entry (r : Row) : WordEntry := mkEntry (row_meaning r) (row_memo r).

(** The last row of the table that has the word [w]. *)
Definition last_row (w : string) (rows : list Row) : option Row :=
  find (fun r => String.eqb (row_word r) w) (rev rows).

(** The session state is initialised and coherent: no duplicate key, no
    duplicate learned word, every learned word in the repository. *)
Definition consistent (s : State) : Prop :=
  exists ws ls,
    ss_words s = Some ws /\ ss_learned s = Some ls /\
    NoDup (Dict.keys ws) /\ NoDup ls /\ learned_in_words ws ls.

(** The ways a run ends that are not a crash of the script's own logic:
    a failed backup copy is the only exception among them. *)
Definition benign {A} (o : Outcome A) : Prop :=
  match o with
  | Raise OSError => True
  | Raise _ => False
  | _ => True
  end.

(** A computation that, started in a consistent state, ends in one and
    ends benignly. *)
Definition keeps_consistent {A} (m : M A) : Prop :=
  forall s, consistent s -> consistent (snd (m s)) /\ benign (fst (m s)).

(** The disk mirrors the session: each store file holds what the session
    state holds. *)
Definition mirrored (s : State) : Prop :=
  exists (ws : Words) ls,
    ss_words s = Some ws /\ ss_learned s = Some ls /\
    files s !! path_name WORDS_FILE = Some (JObject ws) /\
    files s !! path_name LEARNED_FILE = Some (JArray ls).

(** A computation that keeps a property of the state, however it ends. *)
Definition keeps {A} (P : State -> Prop) (m : M A) : Prop :=
  forall s, P s -> P (snd (m s)).

(** Every backup copy of the run goes through. *)
Definition copies_ok (i : Inputs) : Prop :=
  copy_ok (in_env_sync i) = true /\ copy_ok (in_env_add i) = true /\
  copy_ok (in_env_del_words i) = true /\ copy_ok (in_env_del_learned i) = true /\
  copy_ok (in_env_study i) = true.

(** [needle] occurs in [hay]. *)
Definition occurs_in (needle hay : string) : Prop :=
  exists pre post, hay = pre +:+ needle +:+ post.

(** *** Sample data for the concrete runs *)

Definition t_sample : DateTime := mkDateTime 2024 1 2 3 4 5.
Definition env_ok : Env := mkEnv t_sample true.
Definition env_refused : Env := mkEnv t_sample false.

Definition cat : WordEntry := mkEntry "a feline" "".
Definition dog : WordEntry := mkEntry "a canine" "barks".

(** An initialised session with two words, one of them learned, and both
    stores on disk. *)
Definition s_two : State :=
  mkState (Some [("cat", cat); ("dog", dog)]) (Some ["cat"])
          {[ "words.json" := JObject [("cat", cat); ("dog", dog)];
             "learned_words.json" := JArray ["cat"] ]}
          ∅ [].

(** An initialised session with no words and nothing on disk. *)
Definition s_empty : State := mkState (Some []) (Some []) ∅ ∅ [].

(** A session whose learned list names a word the repository does not
    have (see [restart_loses_local_word] for how a session gets there). *)
Definition s_orphan : State :=
  mkState (Some [("cat", cat)]) (Some ["dog"])
          {[ "words.json" := JObject [("cat", cat)];
             "learned_words.json" := JArray ["dog"] ]}
          ∅ [].

(** A fresh session over a words store with one local word, learned, and
    a remote table with one other word. *)
Definition s_local : State :=
  mkState None None
          {[ "words.json" := JObject [("dog", dog)];
             "learned_words.json" := JArray ["dog"] ]}
          ∅ [].

Definition resp_cat : Response :=
  RespResults [mkPage (Some ["cat"]) (Some ["a feline"]) (Some [])].

(** The browser session ends: the session state is gone, the disk stays. *)
Definition new_session (s : State) : State :=
  mkState None None (files s) (backups s) (trace s).

(** Seven saves of the words store, one second apart, and six saves
    within one second. *)
Definition at_second (n : nat) : Env := mkEnv (mkDateTime 2024 1 2 3 4 n) true.

Definition seven_saves : list (Env * json) :=
  map (fun n => (at_second n, JObject [])) [0; 1; 2; 3; 4; 5; 6].

Definition same_second_saves : list (Env * json) :=
  replicate 6 (env_ok, JObject []).

(** Lower case on the letters A to Z, for the concrete runs. *)
Definition lower_ascii (s : string) : string :=
  string_of_list_ascii
    (map (fun c => if (65 <=? nat_of_ascii c) && (nat_of_ascii c <=? 90)
                   then ascii_of_nat (nat_of_ascii c + 32) else c)
         (list_ascii_of_string s)).

(** A run in which the operator clicks nothing. *)
Definition idle_inputs (review : bool) (query : string) : Inputs :=
  mkInputs resp_cat env_ok env_ok env_ok env_ok env_ok
           "" "" "" false query 0 false review false 0 false.

(* ================================================================= *)
(** * Properties *)

(** ** Running the monad *)

Ltac unfold_m :=
  unfold bind, ret, raise, st_stop, st_rerun, gets, modify, emit, set_files,
    set_backups, set_ss_words, set_ss_learned, get_ss_words, get_ss_learned in *.

Ltac run_m := repeat (progress (unfold_m; simpl in * )).

Ltac close_state := run_m; rewrite <- ?app_assoc; simpl; reflexivity.

(** Lookups in a directory after the writes of a run. *)
Ltac solve_lookup :=
  repeat first
    [ rewrite lookup_insert_eq
    | rewrite lookup_insert_ne by (vm_compute; discriminate) ];
  try reflexivity; try assumption.

Lemma bind_ok {A B} (m : M A) (f : A -> M B) s a s' :
  m s = (Ok a, s') -> bind m f s = f a s'.
Proof. intros H. unfold bind. now rewrite H. Qed.

Lemma bind_raise {A B} (m : M A) (f : A -> M B) s e s' :
  m s = (Raise e, s') -> bind m f s = (Raise e, s').
Proof. intros H. unfold bind. now rewrite H. Qed.

Lemma bind_stop {A B} (m : M A) (f : A -> M B) s s' :
  m s = (Stop, s') -> bind m f s = (Stop, s').
Proof. intros H. unfold bind. now rewrite H. Qed.

(** ** Dictionaries *)

Section DictFacts.
Context {V : Type}.
Implicit Types (d : list (string * V)) (k : string) (v : V).

Lemma get_set_eq k v d : Dict.get k (Dict.set k v d) = Some v.
Proof.
  induction d as [|[k' v'] r IH]; simpl.
  - now rewrite decide_True.
  - destruct (decide (k = k')) as [->|Hne]; simpl.
    + now rewrite decide_True.
    + now rewrite decide_False.
Qed.

Lemma get_set_ne k k' v d :
  k <> k' -> Dict.get k' (Dict.set k v d) = Dict.get k' d.
Proof.
  intros Hne. induction d as [|[k0 v0] r IH]; simpl.
  - rewrite decide_False; congruence.
  - destruct (decide (k = k0)) as [->|Hk]; simpl.
    + rewrite !decide_False; congruence.
    + destruct (decide (k' = k0)); auto.
Qed.

Lemma set_same k v d : Dict.get k d = Some v -> Dict.set k v d = d.
Proof.
  induction d as [|[k' v'] r IH]; simpl; [discriminate|].
  destruct (decide (k = k')) as [->|Hne]; intros H.
  - congruence.
  - now rewrite IH.
Qed.

Lemma get_None_keys k d : Dict.get k d = None <-> ~ In k (Dict.keys d).
Proof.
  induction d as [|[k' v'] r IH]; simpl; [tauto|].
  destruct (decide (k = k')) as [->|Hne].
  - split; [discriminate | tauto].
  - rewrite IH. split; [intros H [E|E]; congruence || tauto | tauto].
Qed.

Lemma mem_keys k d : Dict.mem k d = true <-> In k (Dict.keys d).
Proof.
  unfold Dict.mem. destruct (Dict.get k d) eqn:E.
  - split; [intros _|reflexivity].
    destruct (in_dec string_dec k (Dict.keys d)) as [Hi|Hn]; [exact Hi|].
    apply get_None_keys in Hn. congruence.
  - split; [discriminate|]. intros Hi. apply get_None_keys in E. tauto.
Qed.

Lemma keys_set k v d :
  Dict.keys (Dict.set k v d) =
  if Dict.mem k d then Dict.keys d else Dict.keys d ++ [k].
Proof.
  unfold Dict.mem. induction d as [|[k' v'] r IH]; simpl; [reflexivity|].
  destruct (decide (k = k')) as [->|Hne]; simpl; [reflexivity|].
  rewrite IH. now destruct (Dict.get k r).
Qed.

Lemma NoDup_keys_set k v d :
  NoDup (Dict.keys d) -> NoDup (Dict.keys (Dict.set k v d)).
Proof.
  intros Hd. rewrite keys_set. destruct (Dict.mem k d) eqn:E; [exact Hd|].
  apply NoDup_app. split; [exact Hd|]. split.
  - intros x Hx Hx'. apply list_elem_of_singleton in Hx'. subst x.
    apply list_elem_of_In, mem_keys in Hx. congruence.
  - apply NoDup_singleton.
Qed.

Lemma get_update_absent k d1 d2 :
  ~ In k (Dict.keys d2) -> Dict.get k (Dict.update d1 d2) = Dict.get k d1.
Proof.
  unfold Dict.update. revert d1.
  induction d2 as [|[k' v'] r IH]; intros d1 Hn; simpl in *; [reflexivity|].
  rewrite IH by tauto. apply get_set_ne. intros ->. tauto.
Qed.

Lemma get_update_present k v d1 d2 :
  NoDup (Dict.keys d2) -> In (k, v) d2 ->
  Dict.get k (Dict.update d1 d2) = Some v.
Proof.
  unfold Dict.update. revert d1.
  induction d2 as [|[k' v'] r IH]; intros d1 Hnd Hin; simpl in *; [tauto|].
  apply NoDup_cons in Hnd as [Hk' Hnd].
  destruct Hin as [E|Hin].
  - inversion E; subst.
    change (Dict.get k (Dict.update (Dict.set k v d1) r) = Some v).
    rewrite get_update_absent.
    + apply get_set_eq.
    + now rewrite <- list_elem_of_In.
  - now apply IH.
Qed.

Lemma update_fixed d1 d2 :
  (forall k v, In (k, v) d2 -> Dict.get k d1 = Some v) ->
  Dict.update d1 d2 = d1.
Proof.
  unfold Dict.update. induction d2 as [|[k' v'] r IH]; intros H; simpl;
    [reflexivity|].
  rewrite set_same by (apply H; now left).
  apply IH. intros k v Hin. apply H. now right.
Qed.

(** Updating twice with the same dictionary is updating once. *)
Lemma update_idem d1 d2 :
  NoDup (Dict.keys d2) ->
  Dict.update (Dict.update d1 d2) d2 = Dict.update d1 d2.
Proof.
  intros Hnd. apply update_fixed. intros k v Hin.
  now apply get_update_present.
Qed.

Lemma keys_remove k d : ~ In k (Dict.keys (Dict.remove k d)).
Proof.
  unfold Dict.keys, Dict.remove. rewrite in_map_iff.
  intros [[k' v'] [E Hin]]. simpl in E. subst k'.
  apply filter_In in Hin as [_ Hb]. simpl in Hb.
  now rewrite bool_decide_eq_true_2 in Hb.
Qed.

Lemma keys_remove_incl k k' d :
  In k' (Dict.keys (Dict.remove k d)) -> In k' (Dict.keys d).
Proof.
  unfold Dict.keys, Dict.remove. rewrite !in_map_iff.
  intros [kv [E Hin]]. exists kv. split; [exact E|].
  now apply filter_In in Hin as [Hin _].
Qed.

Lemma keys_remove_other k k' d :
  k' <> k -> In k' (Dict.keys d) -> In k' (Dict.keys (Dict.remove k d)).
Proof.
  unfold Dict.keys, Dict.remove. rewrite !in_map_iff.
  intros Hne [kv [E Hin]]. exists kv. split; [exact E|].
  apply filter_In. split; [exact Hin|].
  rewrite bool_decide_eq_false_2; [reflexivity | congruence].
Qed.
End DictFacts.

Lemma NoDup_rows_to_words rows : NoDup (Dict.keys (rows_to_words rows)).
Proof.
  unfold rows_to_words.
  assert (G : forall acc : Words, NoDup (Dict.keys acc) ->
    NoDup (Dict.keys (fold_left (fun words entry =>
      Dict.set (row_word entry) (mkEntry (row_meaning entry) (row_memo entry)) words)
      rows acc))).
  { induction rows as [|r rows IH]; intros acc Hacc; simpl; [exact Hacc|].
    apply IH. now apply NoDup_keys_set. }
  apply G. constructor.
Qed.

(** ** Saving a store *)

Lemma for_each_unlink l s :
  for_each l unlink s =
  (Ok tt, mkState (ss_words s) (ss_learned s) (files s)
                  (unlink_all l (backups s)) (trace s ++ map EvUnlink l)).
Proof.
  revert s. induction l as [|x l IH]; intros [w ln f b tr]; simpl.
  - unfold ret. now rewrite app_nil_r.
  - unfold bind at 1. unfold unlink. unfold_m. simpl.
    rewrite IH. simpl. now rewrite <- app_assoc.
Qed.

Lemma json_dump_existing env p data old s :
  files s !! path_name p = Some old -> copy_ok env = true ->
  _json_dump env p data s =
  (Ok tt,
   mkState (ss_words s) (ss_learned s)
     (<[path_name p := data]> (files s))
     (backups_after (stem p) (now env) old (backups s))
     (trace s ++ EvCopy (path_name p) (snap_name (stem p) (now env))
        :: map EvUnlink
             (trimmed (stem p) (<[snap_name (stem p) (now env) := old]> (backups s)))
        ++ [EvWrite (path_name p) data])).
Proof.
  intros Hf Hc. destruct s as [w ln f b tr]. simpl in *.
  unfold _json_dump, path_exists, copy2, _trim_backups, write_text.
  rewrite Hc. unfold_m. simpl.
  rewrite bool_decide_eq_true_2 by (rewrite Hf; eauto). simpl.
  rewrite Hf. simpl. rewrite for_each_unlink. unfold_m. simpl.
  unfold backups_after, trimmed. simpl.
  do 2 f_equal. rewrite <- !app_assoc. reflexivity.
Qed.

Lemma json_dump_fresh env p data s :
  files s !! path_name p = None ->
  _json_dump env p data s =
  (Ok tt,
   mkState (ss_words s) (ss_learned s)
     (<[path_name p := data]> (files s)) (backups s)
     (trace s ++ [EvWrite (path_name p) data])).
Proof.
  intros Hf. destruct s as [w ln f b tr]. simpl in *.
  unfold _json_dump, path_exists, write_text. unfold_m. simpl.
  rewrite bool_decide_eq_false_2; [reflexivity|].
  rewrite Hf. intros [x Hx]. discriminate.
Qed.

(** With the copy going through, a save ends normally, leaves the session
    state alone and puts [data] in the store file: after the events of the
    backup step, one write. *)
Lemma json_dump_ok env p data s :
  copy_ok env = true ->
  exists b' evs,
    Forall is_backup_event evs /\
    _json_dump env p data s =
    (Ok tt, mkState (ss_words s) (ss_learned s)
                    (<[path_name p := data]> (files s)) b'
                    (trace s ++ evs ++ [EvWrite (path_name p) data])).
Proof.
  intros Hc. destruct (files s !! path_name p) as [old|] eqn:Hf.
  - eexists _, (_ :: _). split; [|now apply json_dump_existing with (old := old)].
    constructor; [exact I|]. apply Forall_forall. intros e He.
    apply list_elem_of_In, in_map_iff in He as [n [<- _]]. exact I.
  - exists (backups s), []. split; [constructor|]. now apply json_dump_fresh.
Qed.

(** Whatever the environment answers, a save never touches the session
    state. *)
Lemma json_dump_session env p data s :
  ss_words (snd (_json_dump env p data s)) = ss_words s /\
  ss_learned (snd (_json_dump env p data s)) = ss_learned s.
Proof.
  destruct (files s !! path_name p) as [old|] eqn:Hf.
  - destruct (copy_ok env) eqn:Hc.
    + rewrite (json_dump_existing env p data old s Hf Hc). simpl. auto.
    + destruct s as [w ln f b tr]. simpl in *.
      unfold _json_dump, path_exists, copy2. rewrite Hc. unfold_m. simpl.
      rewrite bool_decide_eq_true_2 by (rewrite Hf; eauto). simpl. auto.
  - rewrite (json_dump_fresh env p data s Hf). simpl. auto.
Qed.

(** The copy refused: the save raises before anything is written. *)
Lemma json_dump_copy_refused env p data old s :
  files s !! path_name p = Some old -> copy_ok env = false ->
  _json_dump env p data s = (Raise OSError, s).
Proof.
  intros Hf Hc. destruct s as [w ln f b tr]. simpl in *.
  unfold _json_dump, path_exists, copy2. rewrite Hc. unfold_m. simpl.
  rewrite bool_decide_eq_true_2 by (rewrite Hf; eauto). reflexivity.
Qed.

(** From here on a save is used through the lemmas above only. *)
#[local] Arguments _json_dump : simpl never.
#[local] Arguments selectbox : simpl never.

(* ================================================================= *)
(** ** Claims about saving *)

(** C10: a save over an existing store file whose backup copy raises ends
    with that exception before anything is written: the store file, the
    backup directory, the session state and the log are what they were. *)
Theorem C10_copy_failure_aborts_save env p data old s :
  files s !! path_name p = Some old -> copy_ok env = false ->
  _json_dump env p data s = (Raise OSError, s) /\
  files (snd (_json_dump env p data s)) !! path_name p = Some old.
Proof.
  intros Hf Hc. rewrite (json_dump_copy_refused env p data old s Hf Hc).
  split; [reflexivity | exact Hf].
Qed.

Lemma C10_copy_failure_witness :
  _json_dump env_refused WORDS_FILE (JObject []) s_two = (Raise OSError, s_two) /\
  files (snd (_json_dump env_refused WORDS_FILE (JObject []) s_two))
    !! path_name WORDS_FILE = Some (JObject [("cat", cat); ("dog", dog)]).
Proof.
  apply (C10_copy_failure_aborts_save env_refused WORDS_FILE (JObject [])
           (JObject [("cat", cat); ("dog", dog)]) s_two); reflexivity.
Defined.

(* ================================================================= *)
(** ** Claims about the sidebar handlers *)

Lemma truthy_true s : s <> "" -> truthy s = true.
Proof.
  intros H. unfold truthy. destruct (String.eqb s "") eqn:E; [|reflexivity].
  apply String.eqb_eq in E. contradiction.
Qed.

(** C2, as the code has it: with the word or the meaning empty the add
    does nothing at all (no error, no message, no mutation); with both
    non-empty, whitespace included, the entry is set in the session
    repository, the repository is written to the words store in the same
    run, and the success message follows. *)
Theorem C2_add_nonempty_only env memo_ s ws :
  ss_words s = Some ws ->
  (forall w m, w = "" \/ m = "" ->
     add_handler env w m memo_ true s = (Ok tt, s)) /\
  (forall w m, w <> "" -> m <> "" -> copy_ok env = true ->
     exists b' evs,
       Forall is_backup_event evs /\
       add_handler env w m memo_ true s =
       (Ok tt,
        mkState (Some (Dict.set w (mkEntry m memo_) ws)) (ss_learned s)
          (<[path_name WORDS_FILE := JObject (Dict.set w (mkEntry m memo_) ws)]> (files s))
          b'
          (trace s ++ evs
             ++ [EvWrite (path_name WORDS_FILE) (JObject (Dict.set w (mkEntry m memo_) ws));
                 EvSuccessAdded w]))).
Proof.
  intros Hws. split.
  - intros w m [-> | ->]; unfold add_handler; simpl.
    + reflexivity.
    + destruct (truthy w); reflexivity.
  - intros w m Hw Hm Hc. unfold add_handler.
    rewrite (truthy_true w Hw), (truthy_true m Hm). simpl.
    destruct s as [sw sl f b tr]. simpl in *. subst sw.
    unfold save_words.
    destruct (json_dump_ok env WORDS_FILE (JObject (Dict.set w (mkEntry m memo_) ws))
                (mkState (Some (Dict.set w (mkEntry m memo_) ws)) sl f b tr) Hc)
      as (b' & evs & Hev & E).
    exists b', evs. split; [exact Hev|].
    run_m. rewrite E. close_state.
Qed.

Lemma C2_add_witness :
  add_handler env_ok "" "a feline" "" true s_empty = (Ok tt, s_empty) /\
  exists b' evs,
    add_handler env_ok "cat" "a feline" "" true s_empty =
    (Ok tt,
     mkState (Some [("cat", cat)]) (Some [])
       (<[path_name WORDS_FILE := JObject [("cat", cat)]]> ∅) b'
       (evs ++ [EvWrite (path_name WORDS_FILE) (JObject [("cat", cat)]);
                EvSuccessAdded "cat"])).
Proof.
  destruct (C2_add_nonempty_only env_ok "" s_empty [] eq_refl) as [Hrej Hacc].
  split.
  - apply Hrej. now left.
  - destruct (Hacc "cat" "a feline") as (b' & evs & _ & E);
      [discriminate | discriminate | reflexivity |].
    exists b', evs. exact E.
Defined.

(** C2 as stated fails: a word of one blank is accepted, stored and
    written to disk, and an empty word is dropped without any error or
    message. *)
Lemma C2_counterexample :
  (let out := add_handler env_ok " " "x" "" true s_empty in
   fst out = Ok tt /\
   ss_words (snd out) = Some [(" ", mkEntry "x" "")] /\
   files (snd out) !! "words.json" = Some (JObject [(" ", mkEntry "x" "")])) /\
  (let out := add_handler env_ok "" "x" "" true s_empty in
   fst out = Ok tt /\ trace (snd out) = []).
Proof. vm_compute. repeat split; reflexivity. Qed.

(** A save either goes through or raises [OSError] with nothing changed. *)
Lemma json_dump_cases env p data s :
  (exists b' evs,
     Forall is_backup_event evs /\
     _json_dump env p data s =
     (Ok tt, mkState (ss_words s) (ss_learned s)
                     (<[path_name p := data]> (files s)) b'
                     (trace s ++ evs ++ [EvWrite (path_name p) data]))) \/
  (copy_ok env = false /\ _json_dump env p data s = (Raise OSError, s)).
Proof.
  destruct (copy_ok env) eqn:Hc.
  - left. now apply json_dump_ok.
  - destruct (files s !! path_name p) as [old|] eqn:Hf.
    + right. split; [reflexivity|]. now apply json_dump_copy_refused with (old := old).
    + left. exists (backups s), []. split; [constructor|].
      now apply json_dump_fresh.
Qed.

Lemma filter_neq_not_in (W : string) ls :
  ~ In W (List.filter (fun w => negb (String.eqb w W)) ls).
Proof.
  intros H. apply filter_In in H as [_ H].
  now rewrite String.eqb_refl in H.
Qed.

(** C6: deleting a word of the repository removes it from the repository
    and removes every occurrence of it from the learned list, so a learned
    list that named only words of the repository still does; with both
    backup copies going through, the run ends normally with the two updated
    collections written to their stores. *)
Theorem C6_delete_cascades env1 env2 s ws ls W :
  ss_words s = Some ws -> ss_learned s = Some ls -> In W (Dict.keys ws) ->
  let ws' := Dict.remove W ws in
  let ls' := List.filter (fun w => negb (String.eqb w W)) ls in
  let out := delete_handler env1 env2 (Some W) true s in
  ss_words (snd out) = Some ws' /\
  ss_learned (snd out) = Some ls' /\
  ~ In W (Dict.keys ws') /\
  ~ In W ls' /\
  (learned_in_words ws ls -> learned_in_words ws' ls') /\
  (copy_ok env1 = true -> copy_ok env2 = true ->
   fst out = Ok tt /\
   files (snd out) !! path_name WORDS_FILE = Some (JObject ws') /\
   files (snd out) !! path_name LEARNED_FILE = Some (JArray ls')).
Proof.
  intros Hws Hls Hin ws' ls' out.
  assert (Hmem : Dict.mem W ws = true) by now apply mem_keys.
  assert (Hget : exists v, Dict.get W ws = Some v).
  { unfold Dict.mem in Hmem. destruct (Dict.get W ws); [eauto | discriminate]. }
  destruct Hget as [v Hget].
  assert (Hinv : learned_in_words ws ls -> learned_in_words ws' ls').
  { intros Hall w Hw. apply filter_In in Hw as [Hw Hne].
    apply keys_remove_other; [|now apply Hall].
    intros ->. now rewrite String.eqb_refl in Hne. }
  assert (Hnw : ~ In W (Dict.keys ws')) by apply keys_remove.
  assert (Hnl : ~ In W ls') by apply filter_neq_not_in.
  assert (Hout : out =
    bind (save_words env1 ws')
      (fun _ => bind get_ss_learned (fun ls'' =>
         bind (save_learned env2 ls'') (fun _ => emit (EvSuccessDeleted W))))
      (mkState (Some ws') (Some ls') (files s) (backups s) (trace s))).
  { subst out. unfold delete_handler. destruct s as [sw sl f b tr].
    simpl in *. subst sw sl. unfold Dict.pop. run_m.
    rewrite Hmem. simpl. unfold Dict.pop. rewrite Hget. reflexivity. }
  unfold save_words, save_learned in Hout.
  destruct (json_dump_cases env1 WORDS_FILE (JObject ws')
              (mkState (Some ws') (Some ls') (files s) (backups s) (trace s)))
    as [(b1 & ev1 & _ & E1) | [Hc1 E1]].
  - rewrite (bind_ok _ _ _ _ _ E1) in Hout. simpl in Hout.
    unfold bind at 1 in Hout. unfold get_ss_learned in Hout. run_m.
    match type of Hout with
    | context [_json_dump env2 LEARNED_FILE ?d ?st] =>
        destruct (json_dump_cases env2 LEARNED_FILE d st)
          as [(b2 & ev2 & _ & E2) | [Hc2 E2]]
    end.
    + simpl in E2. rewrite E2 in Hout. simpl in Hout. rewrite Hout. simpl.
      repeat split; auto; solve_lookup.
    + rewrite E2 in Hout. simpl in Hout. rewrite Hout. simpl.
      repeat split; auto; congruence.
  - rewrite (bind_raise _ _ _ _ _ E1) in Hout. rewrite Hout. simpl.
    repeat split; auto; congruence.
Qed.

Lemma C6_delete_witness :
  let out := delete_handler env_ok env_ok (Some "cat") true s_two in
  fst out = Ok tt /\
  ss_words (snd out) = Some [("dog", dog)] /\
  ss_learned (snd out) = Some [] /\
  files (snd out) !! path_name WORDS_FILE = Some (JObject [("dog", dog)]) /\
  files (snd out) !! path_name LEARNED_FILE = Some (JArray []).
Proof.
  destruct (C6_delete_cascades env_ok env_ok s_two
              [("cat", cat); ("dog", dog)] ["cat"] "cat" eq_refl eq_refl)
    as (Hw & Hl & _ & _ & _ & Hsave).
  - simpl. now left.
  - destruct (Hsave eq_refl eq_refl) as (Hok & Hfw & Hfl).
    repeat split; assumption.
Defined.

(* ================================================================= *)
(** ** Claims about the study modes *)

Lemma in_list_true w l : in_list w l = true <-> In w l.
Proof.
  unfold in_list. rewrite existsb_exists. split.
  - intros [x [Hx E]]. apply String.eqb_eq in E. now subst.
  - intros H. exists w. split; [exact H | apply String.eqb_refl].
Qed.

Lemma in_list_false w l : in_list w l = false <-> ~ In w l.
Proof.
  rewrite <- in_list_true. destruct (in_list w l); split; congruence.
Qed.

Lemma in_queue w ws ls :
  In w (queue ws ls) <-> In w (Dict.keys ws) /\ ~ In w ls.
Proof.
  unfold queue. rewrite filter_In, negb_true_iff, in_list_false. tauto.
Qed.

Lemma get_of_key {V} k (d : list (string * V)) :
  In k (Dict.keys d) -> exists v, Dict.get k d = Some v.
Proof.
  intros H. destruct (Dict.get k d) eqn:E; [eauto|].
  apply get_None_keys in E. contradiction.
Qed.

(** The learning mode when there is a card to show and "learned" is
    clicked. *)
Lemma learning_click env s ws ls cur q :
  ss_words s = Some ws -> ss_learned s = Some ls ->
  queue ws ls = cur :: q ->
  let out := learning_mode env true s in
  ss_words (snd out) = Some ws /\
  ss_learned (snd out) = Some (ls ++ [cur]) /\
  (copy_ok env = true ->
   fst out = Rerun /\
   files (snd out) !! path_name LEARNED_FILE = Some (JArray (ls ++ [cur]))).
Proof.
  intros Hws Hls Hq out.
  assert (Hcur : In cur (queue ws ls)) by (rewrite Hq; now left).
  apply in_queue in Hcur as [Hkey _].
  destruct (get_of_key _ _ Hkey) as [e He].
  assert (Hout : exists tr, out =
    bind (save_learned env (ls ++ [cur])) (fun _ => st_rerun)
      (mkState (Some ws) (Some (ls ++ [cur])) (files s) (backups s) tr)).
  { subst out. unfold learning_mode, words_item, main_card.
    destruct s as [sw sl f b tr]. simpl in *. subst sw sl.
    run_m. rewrite Hq. rewrite He. run_m. eexists. reflexivity. }
  destruct Hout as [tr Hout]. unfold save_learned in Hout.
  destruct (json_dump_cases env LEARNED_FILE (JArray (ls ++ [cur]))
              (mkState (Some ws) (Some (ls ++ [cur])) (files s) (backups s) tr))
    as [(b2 & ev2 & _ & E2) | [Hc2 E2]].
  - rewrite (bind_ok _ _ _ _ _ E2) in Hout. rewrite Hout. simpl.
    repeat split; auto. solve_lookup.
  - rewrite (bind_raise _ _ _ _ _ E2) in Hout. rewrite Hout. simpl.
    repeat split; auto; congruence.
Qed.

(** The learning mode when every word is learned: the run stops and the
    session state is untouched. *)
Lemma learning_all_learned env btn s ws ls :
  ss_words s = Some ws -> ss_learned s = Some ls ->
  queue ws ls = [] ->
  let out := learning_mode env btn s in
  fst out = Stop /\ ss_words (snd out) = Some ws /\ ss_learned (snd out) = Some ls.
Proof.
  intros Hws Hls Hq out. subst out. unfold learning_mode.
  destruct s as [sw sl f b tr]. simpl in *. subst sw sl.
  run_m. rewrite Hq. run_m. auto.
Qed.

(** C3: when the card shown is W, W is not in the learned list and one
    click appends it; a second click marks another word or none, so after
    two clicks W occurs exactly once, and the words that were in the list
    keep their positions.  A word already in the list is never the card, so
    nothing is appended for it.  With the backup copy going through, the
    click ends in a rerun with the new list in the learned store. *)
Theorem C3_mark_learned_once env1 env2 s ws ls W :
  ss_words s = Some ws -> ss_learned s = Some ls ->
  hd_error (queue ws ls) = Some W ->
  let out1 := learning_mode env1 true s in
  let out2 := learning_mode env2 true (snd out1) in
  ~ In W ls /\
  ss_learned (snd out1) = Some (ls ++ [W]) /\
  (exists rest,
     ss_learned (snd out2) = Some (ls ++ [W] ++ rest) /\
     count_occ string_dec (ls ++ [W] ++ rest) W = 1) /\
  (forall V, In V ls -> hd_error (queue ws ls) <> Some V) /\
  (copy_ok env1 = true ->
   fst out1 = Rerun /\
   files (snd out1) !! path_name LEARNED_FILE = Some (JArray (ls ++ [W]))).
Proof.
  intros Hws Hls Hhd out1 out2.
  destruct (queue ws ls) as [|cur q] eqn:Hq; [discriminate|].
  simpl in Hhd. injection Hhd as ->.
  assert (HW : In W (queue ws ls)) by (rewrite Hq; now left).
  apply in_queue in HW as [_ HnW].
  destruct (learning_click env1 s ws ls W q Hws Hls Hq) as (Hw1 & Hl1 & Hsave).
  fold out1 in Hw1, Hl1, Hsave.
  assert (Hc0 : count_occ string_dec ls W = 0) by now apply count_occ_not_In.
  split; [exact HnW|]. split; [exact Hl1|]. split; [|split; [|exact Hsave]].
  - destruct (queue ws (ls ++ [W])) as [|cur2 q2] eqn:Hq2.
    + destruct (learning_all_learned env2 true (snd out1) ws (ls ++ [W]) Hw1 Hl1 Hq2)
        as (_ & _ & Hl2).
      exists []. fold out2 in Hl2. rewrite app_nil_r. split; [exact Hl2|].
      rewrite count_occ_app, Hc0. simpl.
      destruct (string_dec W W); [reflexivity | congruence].
    + destruct (learning_click env2 (snd out1) ws (ls ++ [W]) cur2 q2 Hw1 Hl1 Hq2)
        as (_ & Hl2 & _).
      fold out2 in Hl2. exists [cur2].
      rewrite <- app_assoc in Hl2. split; [exact Hl2|].
      assert (Hne : cur2 <> W).
      { assert (H2 : In cur2 (queue ws (ls ++ [W]))) by (rewrite Hq2; now left).
        apply in_queue in H2 as [_ H2]. intros ->. apply H2.
        apply in_or_app. right. now left. }
      rewrite !count_occ_app, Hc0. simpl.
      destruct (string_dec W W); [|congruence].
      destruct (string_dec cur2 W); [congruence | reflexivity].
  - intros V HV Heq. injection Heq as <-. contradiction.
Qed.

Lemma C3_mark_learned_witness :
  let out1 := learning_mode env_ok true s_two in
  let out2 := learning_mode env_ok true (snd out1) in
  ss_learned (snd out1) = Some (["cat"] ++ ["dog"]) /\
  (exists rest,
     ss_learned (snd out2) = Some (["cat"] ++ ["dog"] ++ rest) /\
     count_occ string_dec (["cat"] ++ ["dog"] ++ rest) "dog" = 1) /\
  fst out1 = Rerun.
Proof.
  destruct (C3_mark_learned_once env_ok env_ok s_two
              [("cat", cat); ("dog", dog)] ["cat"] "dog" eq_refl eq_refl eq_refl)
    as (_ & H1 & H2 & _ & H4).
  split; [exact H1|]. split; [exact H2|]. now apply H4.
Defined.

Lemma list_remove_present x l :
  In x l ->
  exists l', list_remove x l = Some l' /\
             S (count_occ string_dec l' x) = count_occ string_dec l x /\
             (forall y, In y l' -> In y l).
Proof.
  induction l as [|y r IH]; intros Hin; [contradiction|]. simpl.
  destruct (String.eqb y x) eqn:E.
  - apply String.eqb_eq in E. subst y. exists r. split; [reflexivity|].
    split; [|intros z Hz; now right].
    destruct (string_dec x x); [reflexivity | congruence].
  - apply String.eqb_neq in E. destruct Hin as [->|Hin]; [congruence|].
    destruct (IH Hin) as (l' & -> & Hc & Hsub). exists (y :: l').
    split; [reflexivity|]. split.
    + simpl. destruct (string_dec y x); [congruence | exact Hc].
    + intros z [->|Hz]; [now left | right; now apply Hsub].
Qed.

Lemma list_remove_absent x l : ~ In x l -> list_remove x l = None.
Proof.
  induction l as [|y r IH]; intros Hn; [reflexivity|]. simpl.
  destruct (String.eqb y x) eqn:E.
  - apply String.eqb_eq in E. subst y. exfalso. apply Hn. now left.
  - rewrite IH; [reflexivity|]. intros H. apply Hn. now right.
Qed.

(** The select box of the review mode yields a word of the learned list. *)
Lemma selectbox_in first rest choice :
  In (selectbox (first :: rest) first choice) (first :: rest).
Proof.
  unfold selectbox.
  destruct (Nat.lt_ge_cases choice (length (first :: rest))) as [Hlt|Hge].
  - now apply nth_In.
  - rewrite nth_overflow by exact Hge. now left.
Qed.

(** The card of a word that is not in the learned list: [list.remove]
    raises, it is not a silent no-op.  The select box never yields such a
    word. *)
Lemma review_card_absent_raises :
  review_card env_ok [("cat", cat); ("dog", dog)] ["cat"] "dog" true s_two
  = (Raise ValueError,
     mkState (ss_words s_two) (ss_learned s_two) (files s_two) (backups s_two)
             [EvCard "dog" "a canine" "barks"]).
Proof. reflexivity. Qed.

(** C7, as the code has it: the relearn button on the selected word W, a
    word of the learned list that the repository has, removes the first
    occurrence of W from the learned list, which removes W when the list
    has no duplicates; with the backup copy going through the run ends in a
    rerun with the new list in the learned store.  The select box only
    yields words of the learned list. *)
Theorem C7_unlearn_selected env choice s ws ls W :
  ss_words s = Some ws -> ss_learned s = Some ls ->
  nth_error ls choice = Some W -> In W (Dict.keys ws) ->
  let out := review_mode env choice true s in
  exists l',
    list_remove W ls = Some l' /\
    ss_learned (snd out) = Some l' /\
    S (count_occ string_dec l' W) = count_occ string_dec ls W /\
    (NoDup ls -> ~ In W l') /\
    (forall c, In (selectbox ls (hd W ls) c) ls) /\
    (copy_ok env = true ->
     fst out = Rerun /\
     files (snd out) !! path_name LEARNED_FILE = Some (JArray l')).
Proof.
  intros Hws Hls Hnth Hkey out.
  assert (HinW : In W ls) by (eapply nth_error_In; eassumption).
  destruct (list_remove_present W ls HinW) as (l' & Hrm & Hcount & Hsub).
  destruct (get_of_key _ _ Hkey) as [e He].
  destruct ls as [|first rest]; [contradiction|].
  assert (Hsel : selectbox (first :: rest) first choice = W).
  { unfold selectbox. now apply nth_error_nth. }
  assert (Hout : exists tr, out =
    bind (save_learned env l') (fun _ => st_rerun)
      (mkState (Some ws) (Some l') (files s) (backups s) tr)).
  { subst out. unfold review_mode, review_card, words_item, main_card.
    destruct s as [sw sl f b tr]. simpl in *. subst sw sl.
    run_m. rewrite Hsel, He. run_m. rewrite Hrm. run_m.
    eexists. reflexivity. }
  destruct Hout as [tr Hout]. unfold save_learned in Hout.
  exists l'. split; [exact Hrm|].
  assert (Hnd : NoDup (first :: rest) -> ~ In W l').
  { intros Hnd Hin. apply (count_occ_In string_dec) in Hin.
    apply NoDup_ListNoDup in Hnd.
    pose proof (proj1 (NoDup_count_occ string_dec (first :: rest)) Hnd W). lia. }
  assert (Hsb : forall c, In (selectbox (first :: rest) (hd W (first :: rest)) c)
                             (first :: rest)) by (intros c; apply selectbox_in).
  destruct (json_dump_cases env LEARNED_FILE (JArray l')
              (mkState (Some ws) (Some l') (files s) (backups s) tr))
    as [(b2 & ev2 & _ & E2) | [Hc2 E2]].
  - rewrite (bind_ok _ _ _ _ _ E2) in Hout. rewrite Hout. simpl.
    repeat split; auto. solve_lookup.
  - rewrite (bind_raise _ _ _ _ _ E2) in Hout. rewrite Hout. simpl.
    repeat split; auto; congruence.
Qed.

Lemma C7_unlearn_witness :
  let out := review_mode env_ok 0 true s_two in
  exists l',
    list_remove "cat" ["cat"] = Some l' /\
    ss_learned (snd out) = Some l' /\
    ~ In "cat" l' /\
    fst out = Rerun /\
    files (snd out) !! path_name LEARNED_FILE = Some (JArray l').
Proof.
  destruct (C7_unlearn_selected env_ok 0 s_two [("cat", cat); ("dog", dog)]
              ["cat"] "cat" eq_refl eq_refl eq_refl)
    as (l' & Hrm & Hl & _ & Hnd & _ & Hsave).
  - simpl. now left.
  - exists l'. destruct (Hsave eq_refl) as [Hr Hf].
    repeat split; try assumption.
    apply Hnd. apply NoDup_singleton.
Defined.

(** C7 as stated fails.  A learned word the repository does not have is
    present in the learned list and is not removed: looking up its card
    raises [KeyError] first.  With a duplicate in the list the word is still
    there after the removal. *)
Lemma C7_counterexample :
  (let out := review_mode env_ok 0 true s_orphan in
   fst out = Raise (KeyError "dog") /\ ss_learned (snd out) = Some ["dog"]) /\
  (let s := mkState (Some [("cat", cat)]) (Some ["cat"; "cat"]) ∅ ∅ [] in
   let out := review_mode env_ok 0 true s in
   fst out = Rerun /\ ss_learned (snd out) = Some ["cat"]).
Proof. vm_compute. repeat split; reflexivity. Qed.

(* ================================================================= *)
(** ** Claims about the sync *)

(** Reading a page does not look at the state or change it. *)
Lemma page_row_uniform r :
  (exists row, forall s, page_row r s = (Ok row, s)) \/
  (exists e, forall s, page_row r s = (Raise e, s)).
Proof.
  unfold page_row, first_plain_text.
  destruct (prop_word r) as [[|w ?]|]; [right | | right];
    [eexists; intros; reflexivity | | eexists; intros; reflexivity].
  destruct (prop_mean r) as [[|m ?]|]; [right | | right];
    [eexists; intros; reflexivity | | eexists; intros; reflexivity].
  destruct (prop_memo r) as [[|mm ?]|]; [left | left | right];
    eexists; intros; reflexivity.
Qed.

Lemma append_rows_uniform results acc :
  (exists rows, forall s, append_rows results acc s = (Ok rows, s)) \/
  (exists e, forall s, append_rows results acc s = (Raise e, s)).
Proof.
  revert acc. induction results as [|r rest IH]; intros acc; simpl.
  - left. exists acc. reflexivity.
  - destruct (page_row_uniform r) as [[row Hr] | [e Hr]].
    + destruct (IH (acc ++ [row])) as [[rows H] | [e H]].
      * left. exists rows. intros s. unfold bind. now rewrite Hr, H.
      * right. exists e. intros s. unfold bind. now rewrite Hr, H.
    + right. exists e. intros s. unfold bind. now rewrite Hr.
Qed.

(** The three ways a fetch ends; none depends on the state, and only the
    API error leaves a trace: its message. *)
Lemma fetch_uniform resp :
  (exists rows, forall s, fetch_notion_rows resp s = (Ok rows, s)) \/
  (exists e, forall s, fetch_notion_rows resp s = (Raise e, s)) \/
  (exists a, resp = RespApiError a /\
     forall s, fetch_notion_rows resp s =
       (Stop, mkState (ss_words s) (ss_learned s) (files s) (backups s)
                      (trace s ++ [api_error_event a]))).
Proof.
  destruct resp as [results | a |].
  - destruct (append_rows_uniform results []) as [[rows H] | [e H]].
    + left. exists rows. intros s. unfold fetch_notion_rows, bind, ret. apply H.
    + right. left. exists e. intros s. unfold fetch_notion_rows, bind, ret. apply H.
  - right. right. exists a. split; [reflexivity|]. intros s. reflexivity.
  - right. left. exists TransportError. intros s. reflexivity.
Qed.

(** One run of the merge line on an initialised session, the fetch and the
    backup copy going through. *)
Lemma merge_sync_ok resp env s local rows :
  ss_words s = Some local ->
  (forall s0, fetch_notion_rows resp s0 = (Ok rows, s0)) ->
  copy_ok env = true ->
  exists b' tr',
    merge_sync resp env s =
    (Ok tt,
     mkState (Some (Dict.update local (rows_to_words rows))) (ss_learned s)
       (<[path_name WORDS_FILE := JObject (rows_to_words rows)]> (files s)) b' tr').
Proof.
  intros Hws Hfetch Hc. destruct s as [sw sl f b tr]. simpl in *. subst sw.
  destruct (json_dump_ok env WORDS_FILE (JObject (rows_to_words rows))
              (mkState (Some local) sl f b tr) Hc) as (b' & evs & _ & E).
  exists b'. eexists.
  unfold merge_sync, sync_from_notion, save_words. run_m.
  rewrite Hfetch. rewrite E. run_m. reflexivity.
Qed.

Lemma merge_sync_refused resp env s local rows old :
  ss_words s = Some local ->
  (forall s0, fetch_notion_rows resp s0 = (Ok rows, s0)) ->
  files s !! path_name WORDS_FILE = Some old -> copy_ok env = false ->
  merge_sync resp env s = (Raise OSError, s).
Proof.
  intros Hws Hfetch Hf Hc.
  pose proof (json_dump_copy_refused env WORDS_FILE (JObject (rows_to_words rows))
                old s Hf Hc) as E.
  destruct s as [sw sl f b tr]. simpl in *. subst sw.
  unfold merge_sync, sync_from_notion, save_words. run_m.
  rewrite Hfetch. rewrite E. reflexivity.
Qed.

Lemma fetch_ok_uniform resp s rows :
  fst (fetch_notion_rows resp s) = Ok rows ->
  forall s0, fetch_notion_rows resp s0 = (Ok rows, s0).
Proof.
  intros H. destruct (fetch_uniform resp) as [[rows' Hr] | [[e Hr] | [a [_ Hr]]]];
    rewrite Hr in H; simpl in H; try discriminate.
  injection H as ->. exact Hr.
Qed.

(** C8: on an initialised session, with the fetch returning the same rows
    and the first backup copy going through, the merge line run a second
    time leaves the repository of the session and the content of the words
    store as the first run left them: the session holds the local
    repository updated with the rows, the store the dictionary of the
    rows. *)
Theorem C8_resync_idempotent resp env1 env2 s local rows :
  ss_words s = Some local ->
  fst (fetch_notion_rows resp s) = Ok rows ->
  copy_ok env1 = true ->
  let out1 := merge_sync resp env1 s in
  let out2 := merge_sync resp env2 (snd out1) in
  fst out1 = Ok tt /\
  ss_words (snd out1) = Some (Dict.update local (rows_to_words rows)) /\
  files (snd out1) !! path_name WORDS_FILE = Some (JObject (rows_to_words rows)) /\
  ss_words (snd out2) = ss_words (snd out1) /\
  files (snd out2) !! path_name WORDS_FILE =
  files (snd out1) !! path_name WORDS_FILE.
Proof.
  intros Hws Hfetch Hc1 out1 out2.
  pose proof (fetch_ok_uniform resp s rows Hfetch) as Hall.
  destruct (merge_sync_ok resp env1 s local rows Hws Hall Hc1) as (b1 & tr1 & E1).
  subst out2. subst out1. rewrite E1. simpl.
  split; [reflexivity|]. split; [reflexivity|].
  split; [apply lookup_insert_eq|].
  destruct (copy_ok env2) eqn:Hc2.
  - edestruct (merge_sync_ok resp env2) as (b2 & tr2 & E2);
      [| exact Hall | exact Hc2 | rewrite E2]; [reflexivity|].
    simpl. rewrite update_idem by apply NoDup_rows_to_words.
    split; [reflexivity|]. now rewrite !lookup_insert_eq.
  - erewrite merge_sync_refused; eauto. simpl. apply lookup_insert_eq.
Qed.

Lemma C8_resync_witness :
  let resp := RespResults [mkPage (Some ["cat"]) (Some ["X"]) (Some [])] in
  let out1 := merge_sync resp env_ok s_two in
  let out2 := merge_sync resp env_ok (snd out1) in
  fst out1 = Ok tt /\
  ss_words (snd out1) = Some [("cat", mkEntry "X" ""); ("dog", dog)] /\
  files (snd out1) !! path_name WORDS_FILE = Some (JObject [("cat", mkEntry "X" "")]) /\
  ss_words (snd out2) = ss_words (snd out1) /\
  files (snd out2) !! path_name WORDS_FILE =
  files (snd out1) !! path_name WORDS_FILE.
Proof.
  exact (C8_resync_idempotent
           (RespResults [mkPage (Some ["cat"]) (Some ["X"]) (Some [])])
           env_ok env_ok s_two [("cat", cat); ("dog", dog)]
           [mkRow "cat" "X" ""] eq_refl eq_refl eq_refl).
Defined.

(** ** Session initialisation *)

Lemma names_differ : path_name LEARNED_FILE <> path_name WORDS_FILE.
Proof. vm_compute. discriminate. Qed.

Lemma load_words_spec s :
  match files s !! path_name WORDS_FILE with
  | Some (JObject ws) => load_words s = (Ok ws, s)
  | Some (JArray _) => load_words s = (Raise TypeError, s)
  | None =>
      load_words s =
      (Ok [], mkState (ss_words s) (ss_learned s)
                (<[path_name WORDS_FILE := JObject []]> (files s)) (backups s)
                (trace s ++ [EvWrite (path_name WORDS_FILE) (JObject [])]))
  end.
Proof.
  destruct s as [sw sl f b tr]. simpl.
  destruct (f !! path_name WORDS_FILE) as [[ws|l]|] eqn:Hw;
    unfold load_words, path_exists, write_text; run_m; rewrite Hw; run_m;
    rewrite ?Hw, ?lookup_insert_eq; reflexivity.
Qed.

Lemma load_learned_spec s :
  match files s !! path_name LEARNED_FILE with
  | Some (JArray ls) => load_learned s = (Ok ls, s)
  | Some (JObject _) => load_learned s = (Raise TypeError, s)
  | None =>
      load_learned s =
      (Ok [], mkState (ss_words s) (ss_learned s)
                (<[path_name LEARNED_FILE := JArray []]> (files s)) (backups s)
                (trace s ++ [EvWrite (path_name LEARNED_FILE) (JArray [])]))
  end.
Proof.
  destruct s as [sw sl f b tr]. simpl.
  destruct (f !! path_name LEARNED_FILE) as [[ws|l]|] eqn:Hw;
    unfold load_learned, path_exists, write_text; run_m; rewrite Hw; run_m;
    rewrite ?Hw, ?lookup_insert_eq; reflexivity.
Qed.

(** The two loads: they create a missing store with its default and touch
    nothing else on disk. *)
Lemma load_session_spec s :
  let out := load_session s in
  (fst out = Ok tt \/ exists e, fst out = Raise e) /\
  backups (snd out) = backups s /\
  (forall n c, files s !! n = Some c -> files (snd out) !! n = Some c) /\
  (is_Some (files s !! path_name WORDS_FILE) ->
   is_Some (files s !! path_name LEARNED_FILE) -> files (snd out) = files s) /\
  (fst out = Ok tt ->
   exists ws ls,
     ss_words (snd out) = Some ws /\ ss_learned (snd out) = Some ls /\
     files (snd out) !! path_name WORDS_FILE = Some (JObject ws) /\
     files (snd out) !! path_name LEARNED_FILE = Some (JArray ls)).
Proof.
  pose proof names_differ as Hne.
  pose proof (load_words_spec s) as Hlw.
  unfold load_session.
  destruct (files s !! path_name WORDS_FILE) as [[ws|l]|] eqn:Hw.
  - rewrite (bind_ok _ _ _ _ _ Hlw).
    set (s1 := mkState (Some ws) (ss_learned s) (files s) (backups s) (trace s)).
    change ((set_ss_words ws;; ls <- load_learned;; set_ss_learned ls) s)
      with ((ls <- load_learned;; set_ss_learned ls) s1).
    pose proof (load_learned_spec s1) as Hll. simpl in Hll.
    destruct (files s !! path_name LEARNED_FILE) as [[ws2|l2]|] eqn:Hl.
    + rewrite (bind_raise _ _ _ _ _ Hll). simpl.
      split; [eauto|]. repeat split; auto; try discriminate.
    + rewrite (bind_ok _ _ _ _ _ Hll). simpl.
      split; [eauto|]. repeat split; auto. intros _. eauto 10.
    + rewrite (bind_ok _ _ _ _ _ Hll). simpl.
      split; [eauto|]. split; [reflexivity|]. split; [|split].
      * intros n c Hn. rewrite lookup_insert_ne; [exact Hn | congruence].
      * intros _ [x Hx]. discriminate.
      * intros _. exists ws, []. rewrite lookup_insert_eq.
        rewrite lookup_insert_ne by exact Hne. auto.
  - rewrite (bind_raise _ _ _ _ _ Hlw). simpl.
    split; [eauto|]. repeat split; auto; discriminate.
  - rewrite (bind_ok _ _ _ _ _ Hlw).
    set (f1 := <[path_name WORDS_FILE := JObject []]> (files s)).
    set (s1 := mkState (Some []) (ss_learned s) f1 (backups s)
                       (trace s ++ [EvWrite (path_name WORDS_FILE) (JObject [])])).
    change ((set_ss_words [];; ls <- load_learned;; set_ss_learned ls) _)
      with ((ls <- load_learned;; set_ss_learned ls) s1).
    pose proof (load_learned_spec s1) as Hll. simpl in Hll. unfold f1 in Hll.
    rewrite lookup_insert_ne in Hll by (apply not_eq_sym, Hne).
    destruct (files s !! path_name LEARNED_FILE) as [[ws2|l2]|] eqn:Hl.
    + rewrite (bind_raise _ _ _ _ _ Hll). simpl.
      split; [eauto|]. split; [reflexivity|]. split; [|split].
      * intros n c Hn. unfold f1. rewrite lookup_insert_ne; [exact Hn | congruence].
      * intros [x Hx]. discriminate.
      * discriminate.
    + rewrite (bind_ok _ _ _ _ _ Hll). simpl.
      split; [eauto|]. split; [reflexivity|]. split; [|split].
      * intros n c Hn. unfold f1. rewrite lookup_insert_ne; [exact Hn | congruence].
      * intros [x Hx]. discriminate.
      * intros _. exists [], l2. unfold f1. rewrite lookup_insert_eq.
        rewrite lookup_insert_ne by (apply not_eq_sym, Hne). auto.
    + rewrite (bind_ok _ _ _ _ _ Hll). simpl.
      split; [eauto|]. split; [reflexivity|]. split; [|split].
      * intros n c Hn. unfold f1.
        rewrite !lookup_insert_ne; [exact Hn | congruence | congruence].
      * intros [x Hx]. discriminate.
      * intros _. exists [], []. unfold f1. rewrite lookup_insert_eq.
        rewrite lookup_insert_ne by exact Hne. rewrite lookup_insert_eq. auto.
Qed.

Lemma merge_sync_fetch_raises resp env s local e :
  ss_words s = Some local ->
  (forall s0, fetch_notion_rows resp s0 = (Raise e, s0)) ->
  merge_sync resp env s = (Raise e, s).
Proof.
  intros Hws Hfetch. destruct s as [sw sl f b tr]. simpl in *. subst sw.
  unfold merge_sync, sync_from_notion. run_m. now rewrite Hfetch.
Qed.

Lemma merge_sync_api_error a env s local :
  ss_words s = Some local ->
  merge_sync (RespApiError a) env s =
  (Stop, mkState (ss_words s) (ss_learned s) (files s) (backups s)
                 (trace s ++ [api_error_event a])).
Proof.
  intros Hws. destruct s as [sw sl f b tr]. simpl in *. subst sw. reflexivity.
Qed.

Lemma page_row_raises p s e s' :
  page_row p s = (Raise e, s') -> is_record_error e.
Proof.
  unfold page_row, first_plain_text, bind, ret, raise, is_record_error.
  destruct (prop_word p) as [[|w ws]|]; simpl;
    try (intros H; injection H as <- _; eauto; fail).
  destruct (prop_mean p) as [[|m ms]|]; simpl;
    try (intros H; injection H as <- _; eauto; fail).
  destruct (prop_memo p) as [[|t mm]|]; simpl;
    try (intros H; injection H as <- _; eauto; fail); discriminate.
Qed.

Lemma append_rows_raises results :
  forall acc s e s',
    append_rows results acc s = (Raise e, s') -> is_record_error e.
Proof.
  induction results as [|p rest IH]; intros acc s e s'; [discriminate|].
  change (append_rows (p :: rest) acc s)
    with (bind (page_row p) (fun row => append_rows rest (acc ++ [row])) s).
  destruct (page_row_uniform p) as [[row Hr] | [e0 Hr]].
  - rewrite (bind_ok _ _ _ _ _ (Hr s)). apply IH.
  - rewrite (bind_raise _ _ _ _ _ (Hr s)). intros H. injection H as <- _.
    apply (page_row_raises p s e0 s). apply Hr.
Qed.

(** Which exception a fetch ends with, when it ends with one. *)
Lemma fetch_raises resp s e s' :
  fetch_notion_rows resp s = (Raise e, s') ->
  (resp = RespOther /\ e = TransportError) \/
  (exists results, resp = RespResults results /\ is_record_error e).
Proof.
  destruct resp as [results | a |].
  - intros H. right. exists results. split; [reflexivity|].
    unfold fetch_notion_rows in H. unfold bind at 1 in H. unfold ret in H.
    now apply (append_rows_raises results [] s e s').
  - discriminate.
  - intros H. left. split; [reflexivity|]. now injection H as <- _.
Qed.

(** With well-typed stores the two loads succeed. *)
Lemma load_session_ok s :
  stores_well_typed s -> fst (load_session s) = Ok tt.
Proof.
  intros [Hw Hl]. pose proof names_differ as Hne.
  pose proof (load_words_spec s) as Hlw. unfold load_session.
  destruct Hw as [Hw | [ws Hw]]; rewrite Hw in Hlw;
    rewrite (bind_ok _ _ _ _ _ Hlw).
  - set (s1 := mkState (Some []) (ss_learned s)
                 (<[path_name WORDS_FILE := JObject []]> (files s)) (backups s)
                 (trace s ++ [EvWrite (path_name WORDS_FILE) (JObject [])])).
    change ((set_ss_words [];; ls <- load_learned;; set_ss_learned ls) _)
      with ((ls <- load_learned;; set_ss_learned ls) s1).
    pose proof (load_learned_spec s1) as Hll. simpl in Hll.
    rewrite lookup_insert_ne in Hll by (apply not_eq_sym, Hne).
    destruct Hl as [Hl | [ls Hl]]; rewrite Hl in Hll;
      now rewrite (bind_ok _ _ _ _ _ Hll).
  - set (s1 := mkState (Some ws) (ss_learned s) (files s) (backups s) (trace s)).
    change ((set_ss_words ws;; ls <- load_learned;; set_ss_learned ls) s)
      with ((ls <- load_learned;; set_ss_learned ls) s1).
    pose proof (load_learned_spec s1) as Hll. simpl in Hll.
    destruct Hl as [Hl | [ls Hl]]; rewrite Hl in Hll;
      now rewrite (bind_ok _ _ _ _ _ Hll).
Qed.

(** C9: in a fresh session over well-typed stores whose fetch does not
    return rows, the initialisation block halts and never silently: on an
    API error it ends by [st.stop()] right after the error message, which
    is the only thing it adds to the log; on any other failure it ends with
    the exception itself ([TransportError] when the remote cannot be
    reached, [KeyError] or [IndexError] for a record that cannot be read),
    which nothing catches.  The sync has changed nothing: the session holds
    what the two loads read, the store files hold exactly that, every file
    that was on disk keeps its content (the loads only create a missing
    store with its default), and no backup is made. *)
Theorem C9_fetch_failure_leaves_local_state resp env s :
  ss_words s = None ->
  stores_well_typed s ->
  (forall rows, fst (fetch_notion_rows resp s) <> Ok rows) ->
  let out := session_init resp env s in
  let loaded := snd (load_session s) in
  ((exists a, resp = RespApiError a /\ fst out = Stop /\
              trace (snd out) = trace loaded ++ [api_error_event a]) \/
   (exists e, fst out = Raise e /\ trace (snd out) = trace loaded /\
              ((resp = RespOther /\ e = TransportError) \/
               (exists results, resp = RespResults results /\ is_record_error e)))) /\
  ss_words (snd out) = ss_words loaded /\
  ss_learned (snd out) = ss_learned loaded /\
  files (snd out) = files loaded /\
  backups (snd out) = backups s /\
  (forall n c, files s !! n = Some c -> files (snd out) !! n = Some c) /\
  (is_Some (files s !! path_name WORDS_FILE) ->
   is_Some (files s !! path_name LEARNED_FILE) -> files (snd out) = files s) /\
  (exists (ws : Words) ls,
     ss_words (snd out) = Some ws /\ ss_learned (snd out) = Some ls /\
     files (snd out) !! path_name WORDS_FILE = Some (JObject ws) /\
     files (snd out) !! path_name LEARNED_FILE = Some (JArray ls)).
Proof.
  intros Hnone Hwt Hfail out loaded.
  pose proof (load_session_ok s Hwt) as Hload_ok.
  destruct (load_session_spec s) as (_ & Hb & Hkeep & Hsame & Hok).
  fold loaded in Hb, Hkeep, Hsame, Hok.
  destruct (Hok Hload_ok) as (ws & ls & Hws & Hls & Hfw & Hfl).
  assert (Hout : out = bind load_session (fun _ => merge_sync resp env) s).
  { subst out. unfold session_init. unfold bind at 1. unfold gets.
    now rewrite Hnone. }
  destruct (load_session s) as [r l] eqn:Hload. simpl in *. subst r loaded.
  rewrite (bind_ok _ _ _ _ _ Hload) in Hout.
  destruct (fetch_uniform resp) as [[rows Hr] | [[e Hr] | [a [-> Hr]]]].
  - exfalso. apply (Hfail rows). now rewrite Hr.
  - rewrite (merge_sync_fetch_raises resp env l ws e Hws Hr) in Hout.
    rewrite Hout. simpl.
    split; [|do 6 (split; [auto|]); exists ws, ls; auto].
    right. exists e. split; [reflexivity|]. split; [reflexivity|].
    apply (fetch_raises resp s e s). apply Hr.
  - rewrite (merge_sync_api_error a env l ws Hws) in Hout.
    rewrite Hout. simpl.
    split; [|do 6 (split; [auto|]); exists ws, ls; auto].
    left. exists a. auto.
Qed.

Lemma C9_fetch_failure_witness :
  let a := mkApiError 401 "unauthorized" (Some "API token is invalid.") "" in
  let s := mkState None None (files s_two) ∅ [] in
  (let out := session_init (RespApiError a) env_ok s in
   fst out = Stop /\ files (snd out) = files s /\ backups (snd out) = backups s /\
   trace (snd out) = [api_error_event a]) /\
  (let out := session_init RespOther env_ok s in
   fst out = Raise TransportError /\ files (snd out) = files s /\
   backups (snd out) = backups s /\ trace (snd out) = []) /\
  (let out := session_init (RespResults [mkPage (Some []) (Some ["x"]) (Some [])])
                           env_ok s in
   exists e, fst out = Raise e /\ is_record_error e /\ files (snd out) = files s /\
             ss_words (snd out) = Some [("cat", cat); ("dog", dog)]).
Proof.
  intros a s.
  assert (Hwt : stores_well_typed s).
  { split; right; eexists; reflexivity. }
  split; [|split].
  - destruct (C9_fetch_failure_leaves_local_state (RespApiError a) env_ok s
                eq_refl Hwt) as ([(a' & Ea & Hstop & Htr) | (e & He & _)] & _ & _ & _ & Hb & _ & Hsame & _).
    + intros rows. discriminate.
    + injection Ea as <-. cbv zeta.
      split; [exact Hstop|]. split; [|split; [exact Hb | exact Htr]].
      apply Hsame; eexists; reflexivity.
    + discriminate He.
  - destruct (C9_fetch_failure_leaves_local_state RespOther env_ok s
                eq_refl Hwt) as ([(a' & Ea & _) | (e & He & Htr & Hkind)] & _ & _ & _ & Hb & _ & Hsame & _).
    + intros rows. discriminate.
    + discriminate Ea.
    + destruct Hkind as [[_ ->] | (r & Er & _)]; [|discriminate Er].
      cbv zeta. split; [exact He|]. split; [|split; [exact Hb | exact Htr]].
      apply Hsame; eexists; reflexivity.
  - destruct (C9_fetch_failure_leaves_local_state
                (RespResults [mkPage (Some []) (Some ["x"]) (Some [])]) env_ok s
                eq_refl Hwt) as ([(a' & Ea & _) | (e & He & _ & Hkind)] & Hw & _ & _ & _ & _ & Hsame & _).
    + intros rows. discriminate.
    + discriminate Ea.
    + destruct Hkind as [[Er _] | (r & _ & Hrec)]; [discriminate Er|].
      cbv zeta. exists e. split; [exact He|]. split; [exact Hrec|].
      split; [|exact Hw].
      apply Hsame; eexists; reflexivity.
Defined.


(** In the session, the sync never drops or changes a word the remote
    table does not have. *)
Lemma sync_keeps_local_word (local : Words) rows W :
  ~ In W (Dict.keys (rows_to_words rows)) ->
  Dict.get W (Dict.update local (rows_to_words rows)) = Dict.get W local.
Proof. apply get_update_absent. Qed.

(** C1, evaluated: a local store with the word dog, a remote table with
    the word cat.  After the initialisation the session has both words, dog
    unchanged, and the words store was written once; but what was written
    is the remote dictionary alone, not the merged one the session holds:
    dog is no longer in the store. *)
Theorem C1_sync_persists_remote_only :
  let out := session_init resp_cat env_ok s_local in
  fst out = Ok tt /\
  ss_words (snd out) = Some [("dog", dog); ("cat", cat)] /\
  trace (snd out) =
    [EvCopy "words.json" "words_2024-01-02_030405.json";
     EvWrite "words.json" (JObject [("cat", cat)])] /\
  files (snd out) !! "words.json" = Some (JObject [("cat", cat)]) /\
  files (snd out) !! "words.json" <> Some (JObject [("dog", dog); ("cat", cat)]).
Proof. vm_compute. repeat split; try reflexivity. discriminate. Qed.

(** The next browser session starts from the store the sync wrote: the
    local word is gone from the repository while the learned list still
    names it. *)
Lemma restart_loses_local_word :
  let s1 := snd (session_init resp_cat env_ok s_local) in
  let out := session_init resp_cat env_ok (new_session s1) in
  fst out = Ok tt /\
  ss_words (snd out) = ss_words s_orphan /\
  ss_learned (snd out) = ss_learned s_orphan.
Proof. vm_compute. repeat split; reflexivity. Qed.

(* ================================================================= *)
(** ** Snapshot names and their order *)

Lemma app_cons a (s r : string) : String a s +:+ r = String a (s +:+ r).
Proof. reflexivity. Qed.

Lemma app_assoc_str (a b c : string) : (a +:+ b) +:+ c = a +:+ (b +:+ c).
Proof. induction a as [|x a IH]; [reflexivity|]. rewrite !app_cons. now rewrite IH. Qed.

Lemma strip_prefix_app p r : strip_prefix p (p +:+ r) = Some r.
Proof.
  induction p as [|a p IH]; [now destruct r|].
  rewrite app_cons. simpl. now rewrite Ascii.eqb_refl.
Qed.

Lemma ends_with_app x suf : ends_with suf (x +:+ suf) = true.
Proof.
  induction x as [|a x IH].
  - change (EmptyString +:+ suf) with suf.
    destruct suf; simpl; [reflexivity|]. now rewrite Ascii.eqb_refl, String.eqb_refl.
  - rewrite app_cons. simpl. rewrite IH. apply orb_true_r.
Qed.

Lemma glob_match_snap_name stem_ t : glob_match stem_ (snap_name stem_ t) = true.
Proof.
  unfold glob_match, snap_name. rewrite <- app_assoc_str.
  rewrite strip_prefix_app. apply ends_with_app.
Qed.

Lemma compare_refl_str s : String.compare s s = Eq.
Proof.
  induction s as [|a s IH]; [reflexivity|]. simpl.
  unfold Ascii.compare. now rewrite N.compare_refl.
Qed.

(** Strings that start with parts of equal length compare part by part. *)
Lemma compare_app_len x1 x2 r1 r2 :
  String.length x1 = String.length x2 ->
  String.compare (x1 +:+ r1) (x2 +:+ r2) =
  lex (String.compare x1 x2) (String.compare r1 r2).
Proof.
  revert x2. induction x1 as [|a x1 IH]; intros [|b x2] Hlen;
    try discriminate; [reflexivity|].
  rewrite !app_cons. simpl. destruct (Ascii.compare a b); try reflexivity.
  apply IH. now injection Hlen.
Qed.

Lemma compare_app_same p r1 r2 :
  String.compare (p +:+ r1) (p +:+ r2) = String.compare r1 r2.
Proof. rewrite compare_app_len by reflexivity. now rewrite compare_refl_str. Qed.

Lemma d2_order_check_ok : d2_order_check = true.
Proof. vm_compute. reflexivity. Qed.

Lemma d2_shape_check_ok : d2_shape_check = true.
Proof. vm_compute. reflexivity. Qed.

Lemma compare_d2 a b :
  a < 100 -> b < 100 -> String.compare (d2 a) (d2 b) = Nat.compare a b.
Proof.
  intros Ha Hb. pose proof d2_order_check_ok as H. unfold d2_order_check in H.
  rewrite forallb_forall in H.
  assert (Hia : In a (seq 0 100)) by (apply in_seq; lia).
  assert (Hib : In b (seq 0 100)) by (apply in_seq; lia).
  specialize (H a Hia). rewrite forallb_forall in H. specialize (H b Hib).
  destruct (String.compare (d2 a) (d2 b)), (Nat.compare a b);
    congruence.
Qed.

Lemma lex_div_mod a b :
  lex (Nat.compare (a / 100) (b / 100)) (Nat.compare (a mod 100) (b mod 100)) =
  Nat.compare a b.
Proof.
  pose proof (Nat.div_mod_eq a 100) as Ea.
  pose proof (Nat.div_mod_eq b 100) as Eb.
  pose proof (Nat.mod_upper_bound a 100 ltac:(lia)) as Ua.
  pose proof (Nat.mod_upper_bound b 100 ltac:(lia)) as Ub.
  destruct (Nat.compare_spec (a / 100) (b / 100)) as [E|L|G]; unfold lex.
  - destruct (Nat.compare_spec (a mod 100) (b mod 100));
      symmetry; [apply Nat.compare_eq_iff | apply Nat.compare_lt_iff
                | apply Nat.compare_gt_iff]; lia.
  - symmetry. apply Nat.compare_lt_iff. lia.
  - symmetry. apply Nat.compare_gt_iff. lia.
Qed.

Lemma compare_d4 a b :
  a < 100 * 100 -> b < 100 * 100 ->
  String.compare (d4 a) (d4 b) = Nat.compare a b.
Proof.
  intros Ha Hb. unfold d4. rewrite compare_app_len by reflexivity.
  assert (a / 100 < 100) by (apply Nat.Div0.div_lt_upper_bound; lia).
  assert (b / 100 < 100) by (apply Nat.Div0.div_lt_upper_bound; lia).
  rewrite !compare_d2 by (try assumption; apply Nat.mod_upper_bound; lia).
  apply lex_div_mod.
Qed.

Lemma length_strftime t : String.length (strftime t) = 17.
Proof. reflexivity. Qed.

(** For well-formed clock readings the printed stamps compare as the
    readings do in time. *)
Lemma compare_strftime a b :
  wf_datetime a -> wf_datetime b ->
  String.compare (strftime a) (strftime b) = dt_compare a b.
Proof.
  intros (Hy & Hm & Hd & Hh & Hmi & Hs) (Hy' & Hm' & Hd' & Hh' & Hmi' & Hs').
  unfold strftime, dt_compare.
  rewrite compare_app_len by reflexivity. rewrite compare_d4 by lia. f_equal.
  rewrite compare_app_same.
  rewrite compare_app_len by reflexivity. rewrite compare_d2 by lia. f_equal.
  rewrite compare_app_same.
  rewrite compare_app_len by reflexivity. rewrite compare_d2 by lia. f_equal.
  rewrite compare_app_same.
  rewrite compare_app_len by reflexivity. rewrite compare_d2 by lia. f_equal.
  rewrite compare_app_len by reflexivity. rewrite !compare_d2 by lia.
  reflexivity.
Qed.

Lemma lex_Eq_r c : lex c Eq = c.
Proof. now destruct c. Qed.

(** Sorting snapshot names of one store puts them in the order of their
    clock readings. *)
Lemma compare_snap_name stem_ a b :
  wf_datetime a -> wf_datetime b ->
  String.compare (snap_name stem_ a) (snap_name stem_ b) = dt_compare a b.
Proof.
  intros Ha Hb. unfold snap_name. rewrite !compare_app_same.
  rewrite compare_app_len by (now rewrite !length_strftime).
  rewrite compare_refl_str, lex_Eq_r. now apply compare_strftime.
Qed.

Lemma dt_compare_eq a b : dt_compare a b = Eq -> a = b.
Proof.
  destruct a as [y m d h mi s], b as [y' m' d' h' mi' s']. unfold dt_compare. simpl.
  destruct (Nat.compare_spec y y'); try discriminate.
  destruct (Nat.compare_spec m m'); try discriminate.
  destruct (Nat.compare_spec d d'); try discriminate.
  destruct (Nat.compare_spec h h'); try discriminate.
  destruct (Nat.compare_spec mi mi'); try discriminate.
  destruct (Nat.compare_spec s s'); try discriminate.
  intros _. congruence.
Qed.

(** Second granularity: two well-formed readings give the same snapshot
    name exactly when they are the same second. *)
Lemma snap_name_inj stem_ a b :
  wf_datetime a -> wf_datetime b ->
  snap_name stem_ a = snap_name stem_ b -> a = b.
Proof.
  intros Ha Hb E. apply dt_compare_eq.
  rewrite <- (compare_snap_name stem_ a b Ha Hb), E. apply compare_refl_str.
Qed.

Lemma is_stamp_strftime t : wf_datetime t -> is_stamp (strftime t) = true.
Proof.
  intros (Hy & Hm & Hd & Hh & Hmi & Hs).
  pose proof d2_shape_check_ok as H. unfold d2_shape_check in H.
  rewrite forallb_forall in H.
  assert (Hd2 : forall n, n < 100 ->
            exists x y, d2 n = String x (String y EmptyString) /\
                        is_digit x = true /\ is_digit y = true).
  { intros n Hn. assert (Hi : In n (seq 0 100)) by (apply in_seq; lia).
    specialize (H n Hi). destruct (d2 n) as [|x [|y [|]]]; try discriminate.
    apply andb_true_iff in H as [Hx Hy0]. eauto. }
  assert (year t / 100 < 100) by (apply Nat.Div0.div_lt_upper_bound; lia).
  assert (year t mod 100 < 100) by (apply Nat.mod_upper_bound; lia).
  unfold strftime, d4.
  destruct (Hd2 (year t / 100)) as (y1 & y2 & -> & Hy1 & Hy2); [lia|].
  destruct (Hd2 (year t mod 100)) as (y3 & y4 & -> & Hy3 & Hy4); [lia|].
  destruct (Hd2 (month t)) as (m1 & m2 & -> & Hm1 & Hm2); [lia|].
  destruct (Hd2 (day t)) as (d1 & d2' & -> & Hd1 & Hd2'); [lia|].
  destruct (Hd2 (hour t)) as (a1 & a2 & -> & Ha1 & Ha2); [lia|].
  destruct (Hd2 (minute t)) as (b1 & b2 & -> & Hb1 & Hb2); [lia|].
  destruct (Hd2 (second t)) as (c1 & c2 & -> & Hc1 & Hc2); [lia|].
  cbv [is_stamp String.app String.append list_ascii_of_string forallb].
  rewrite Hy1, Hy2, Hy3, Hy4, Hm1, Hm2, Hd1, Hd2', Ha1, Ha2, Hb1, Hb2, Hc1, Hc2.
  reflexivity.
Qed.

(* ================================================================= *)
(** ** The sorted listing of the backup directory *)

Lemma glob_sorted_spec stem_ (b : gmap string json) :
  Sorted String.le (glob_sorted stem_ b) /\
  NoDup (glob_sorted stem_ b) /\
  (forall n, n ∈ glob_sorted stem_ b <->
             is_Some (b !! n) /\ glob_match stem_ n = true).
Proof.
  unfold glob_sorted. split; [apply Sorted_merge_sort; apply _|]. split.
  - rewrite merge_sort_Permutation. apply NoDup_ListNoDup, List.NoDup_filter.
    apply NoDup_ListNoDup, NoDup_elements.
  - intros n. rewrite merge_sort_Permutation.
    rewrite list_elem_of_In, filter_In, <- list_elem_of_In.
    now rewrite elem_of_elements, elem_of_dom.
Qed.

(** A listing is determined by its elements. *)
Lemma glob_sorted_unique stem_ (b : gmap string json) l :
  Sorted String.le l -> NoDup l ->
  (forall n, n ∈ l <-> is_Some (b !! n) /\ glob_match stem_ n = true) ->
  glob_sorted stem_ b = l.
Proof.
  intros Hs Hn Hl. destruct (glob_sorted_spec stem_ b) as (Hs' & Hn' & Hl').
  apply (Sorted_unique String.le); [exact Hs' | exact Hs |].
  apply NoDup_Permutation; [exact Hn' | exact Hn |].
  intros n. now rewrite Hl, Hl'.
Qed.

Lemma lookup_unlink_all l (b : gmap string json) n :
  unlink_all l b !! n = if decide (n ∈ l) then None else b !! n.
Proof.
  unfold unlink_all. revert b. induction l as [|x l IH]; intros b; cbn [fold_left].
  - destruct (decide (n ∈ [])) as [H|_]; [now apply elem_of_nil in H | reflexivity].
  - rewrite IH.
    destruct (decide (n ∈ l)) as [Hin|Hnin];
      destruct (decide (n ∈ x :: l)) as [Hc|Hc]; try reflexivity.
    + exfalso. apply Hc. now right.
    + apply elem_of_cons in Hc as [->|Hc]; [apply lookup_delete_eq | contradiction].
    + apply lookup_delete_ne. intros ->. apply Hc. now left.
Qed.

Lemma compare_Lt_le x y : String.compare x y = Lt -> String.le x y.
Proof. intros H. unfold String.le, String.leb. now rewrite H. Qed.

(** A new snapshot whose name sorts after those in the directory goes last
    in the listing. *)
Lemma glob_sorted_insert stem_ (b : gmap string json) n old :
  glob_match stem_ n = true ->
  (forall x, x ∈ glob_sorted stem_ b -> String.compare x n = Lt) ->
  glob_sorted stem_ (<[n := old]> b) = glob_sorted stem_ b ++ [n].
Proof.
  intros Hm Hlt. destruct (glob_sorted_spec stem_ b) as (Hs & Hn & Hl).
  assert (Hfresh : n ∉ glob_sorted stem_ b).
  { intros Hin. apply Hlt in Hin. rewrite compare_refl_str in Hin. discriminate. }
  apply glob_sorted_unique.
  - apply StronglySorted_Sorted, StronglySorted_app_2.
    + intros x1 x2 H1 H2. apply list_elem_of_singleton in H2. subst x2.
      now apply compare_Lt_le, Hlt.
    + exact (Sorted_StronglySorted String.le _ Hs).
    + repeat constructor.
  - apply NoDup_app. split; [exact Hn|]. split; [|apply NoDup_singleton].
    intros x Hx Hx'. apply list_elem_of_singleton in Hx'. now subst x.
  - intros x. rewrite elem_of_app, list_elem_of_singleton, Hl.
    destruct (decide (x = n)) as [->|Hne].
    + rewrite lookup_insert_eq. split; [intros _; eauto | now right].
    + rewrite lookup_insert_ne by congruence. tauto.
Qed.

(** After the trim only the last five names of the listing are left. *)
Lemma glob_sorted_trim stem_ (b : gmap string json) :
  glob_sorted stem_ (unlink_all (trimmed stem_ b) b) =
  lastn 5 (glob_sorted stem_ b).
Proof.
  destruct (glob_sorted_spec stem_ b) as (Hs & Hn & Hl).
  unfold trimmed, lastn. simpl.
  set (l := glob_sorted stem_ b) in *. set (k := length l - 5).
  assert (Hsplit : take k l ++ drop k l = l) by apply take_drop.
  assert (Hss : StronglySorted String.le (take k l ++ drop k l)).
  { rewrite Hsplit. exact (Sorted_StronglySorted String.le _ Hs). }
  assert (Hnd : NoDup (take k l ++ drop k l)) by now rewrite Hsplit.
  apply NoDup_app in Hnd as (_ & Hdisj & Hnd2).
  apply glob_sorted_unique.
  - apply StronglySorted_Sorted. now apply StronglySorted_app_1_r in Hss.
  - exact Hnd2.
  - intros n. rewrite lookup_unlink_all.
    destruct (decide (n ∈ take k l)) as [Hin|Hnin].
    + split; [intros Hd; exfalso; now apply (Hdisj n) | intros [[x Hx] _]; discriminate].
    + rewrite <- Hl. rewrite <- Hsplit at 2. rewrite elem_of_app. tauto.
Qed.

Lemma glob_sorted_backups_after stem_ t old (b : gmap string json) :
  (forall x, x ∈ glob_sorted stem_ b ->
             String.compare x (snap_name stem_ t) = Lt) ->
  glob_sorted stem_ (backups_after stem_ t old b) =
  lastn 5 (glob_sorted stem_ b ++ [snap_name stem_ t]).
Proof.
  intros Hlt. unfold backups_after. cbv zeta. rewrite glob_sorted_trim.
  now rewrite glob_sorted_insert by (try apply glob_match_snap_name; exact Hlt).
Qed.

Lemma lastn_app_lastn {A} k (l1 l2 : list A) :
  lastn k (lastn k l1 ++ l2) = lastn k (l1 ++ l2).
Proof.
  unfold lastn. rewrite !length_app, length_drop.
  rewrite !drop_app. rewrite drop_drop. rewrite length_drop.
  f_equal; f_equal; lia.
Qed.

Lemma lastn_app_long {A} k (l1 l2 : list A) :
  k <= length l2 -> lastn k (l1 ++ l2) = lastn k l2.
Proof.
  intros H. unfold lastn. rewrite length_app, drop_app.
  rewrite drop_ge by lia. simpl. f_equal. lia.
Qed.

(* ================================================================= *)
(** ** Claims about snapshots *)

Lemma trimmed_spares_newest stem_ (b : gmap string json) n old :
  glob_match stem_ n = true ->
  (forall x, x ∈ glob_sorted stem_ b -> String.compare x n = Lt) ->
  n ∉ trimmed stem_ (<[n := old]> b).
Proof.
  intros Hm Hlt. unfold trimmed. rewrite (glob_sorted_insert _ _ _ _ Hm Hlt).
  simpl. rewrite length_app. simpl.
  rewrite take_app_le by lia. intros Hin.
  assert (Hin' : n ∈ glob_sorted stem_ b).
  { rewrite <- (take_drop (length (glob_sorted stem_ b) + 1 - 5) (glob_sorted stem_ b)).
    apply elem_of_app. now left. }
  apply Hlt in Hin'. rewrite compare_refl_str in Hin'. discriminate.
Qed.

(** C5, as the code has it: a save over an existing store file first copies
    the file to the snapshot, then only unlinks snapshots, then writes the
    store.  The snapshot is named [{stem}_{YYYY-MM-DD_HHMMSS}.json], with
    hyphens in the date; the name fixes the second of the save.  Unless the
    trim of the same save removes it, which cannot happen when its name
    sorts after the existing ones, the snapshot holds the old content. *)
Theorem C5_snapshot_before_overwrite env p data old s :
  files s !! path_name p = Some old -> copy_ok env = true ->
  wf_datetime (now env) ->
  let out := _json_dump env p data s in
  let snap := snap_name (stem p) (now env) in
  fst out = Ok tt /\
  files (snd out) !! path_name p = Some data /\
  (exists dels,
     trace (snd out) =
       trace s ++ [EvCopy (path_name p) snap] ++ map EvUnlink dels
               ++ [EvWrite (path_name p) data] /\
     (snap ∉ dels -> backups (snd out) !! snap = Some old)) /\
  ((forall x, x ∈ glob_sorted (stem p) (backups s) -> String.compare x snap = Lt) ->
   backups (snd out) !! snap = Some old) /\
  (exists stamp,
     snap = stem p +:+ "_" +:+ stamp +:+ ".json" /\ is_stamp stamp = true) /\
  (forall t', wf_datetime t' -> snap_name (stem p) t' = snap -> t' = now env).
Proof.
  intros Hf Hc Hwf out snap. subst out.
  rewrite (json_dump_existing env p data old s Hf Hc). simpl.
  fold snap.
  assert (Hkeep : snap ∉ trimmed (stem p) (<[snap := old]> (backups s)) ->
                  backups_after (stem p) (now env) old (backups s) !! snap = Some old).
  { intros Hn. unfold backups_after. cbv zeta. fold snap.
    rewrite lookup_unlink_all. rewrite decide_False by exact Hn.
    apply lookup_insert_eq. }
  split; [reflexivity|]. split; [apply lookup_insert_eq|]. split; [|split; [|split]].
  - exists (trimmed (stem p) (<[snap := old]> (backups s))).
    split; [reflexivity | exact Hkeep].
  - intros Hlt. apply Hkeep. apply trimmed_spares_newest; [|exact Hlt].
    apply glob_match_snap_name.
  - exists (strftime (now env)). split; [reflexivity|]. now apply is_stamp_strftime.
  - intros t' Hwf' E. now apply (snap_name_inj (stem p)).
Qed.

Lemma C5_snapshot_witness :
  let out := _json_dump env_ok WORDS_FILE (JObject []) s_two in
  fst out = Ok tt /\
  files (snd out) !! path_name WORDS_FILE = Some (JObject []) /\
  backups (snd out) !! snap_name "words" t_sample =
    Some (JObject [("cat", cat); ("dog", dog)]).
Proof.
  assert (Hwf : wf_datetime t_sample) by (unfold wf_datetime; simpl; lia).
  destruct (C5_snapshot_before_overwrite env_ok WORDS_FILE (JObject [])
              (JObject [("cat", cat); ("dog", dog)]) s_two eq_refl eq_refl Hwf)
    as (Hok & Hfile & _ & Hsnap & _).
  split; [exact Hok|]. split; [exact Hfile|].
  apply Hsnap. intros x Hx. vm_compute in Hx. now apply elem_of_nil in Hx.
Defined.

(** C5 as stated fails: the snapshot of a save at 2024-01-02 03:04:05 is
    named with hyphens in the date, and no file with the claimed name
    exists afterwards. *)
Lemma C5_counterexample :
  let out := _json_dump env_ok WORDS_FILE (JObject []) s_two in
  fst out = Ok tt /\
  snap_name "words" t_sample = "words_2024-01-02_030405.json" /\
  map fst (map_to_list (backups (snd out))) = ["words_2024-01-02_030405.json"] /\
  backups (snd out) !! "words_20240102_030405.json" = None.
Proof. vm_compute. repeat split; reflexivity. Qed.

(** ** Retention *)

Lemma elem_of_lastn {A} k (l : list A) x : x ∈ lastn k l -> x ∈ l.
Proof.
  unfold lastn. intros H.
  rewrite <- (take_drop (length l - k) l). apply elem_of_app. now right.
Qed.

Lemma saves_cons p ed l s :
  saves p (ed :: l) s = bind (_json_dump (fst ed) p (snd ed)) (fun _ => saves p l) s.
Proof. reflexivity. Qed.

(** Saves over an existing store, at later and later seconds, each later
    than every snapshot in the directory: the listing ends up as the last
    five of the old names followed by the new ones. *)
Lemma saves_existing p l :
  forall s old,
    files s !! path_name p = Some old ->
    Forall (fun ed => copy_ok (fst ed) = true /\ wf_datetime (now (fst ed))) l ->
    StronglySorted dt_lt (save_times l) ->
    (forall x ed, x ∈ glob_sorted (stem p) (backups s) -> In ed l ->
       String.compare x (snap_name (stem p) (now (fst ed))) = Lt) ->
    fst (saves p l s) = Ok tt /\
    glob_sorted (stem p) (backups (snd (saves p l s))) =
    match l with
    | [] => glob_sorted (stem p) (backups s)
    | _ => lastn 5 (glob_sorted (stem p) (backups s) ++ snap_names (stem p) l)
    end.
Proof.
  induction l as [|[env data] r IH]; intros s old Hf Hall Hsorted Hlt.
  - split; reflexivity.
  - apply Forall_cons in Hall as [[Hc Hwf] Hall].
    apply StronglySorted_inv in Hsorted as [Hsorted Hfirst].
    rewrite saves_cons. simpl fst. simpl snd.
    rewrite (bind_ok _ _ _ _ _ (json_dump_existing env p data old s Hf Hc)).
    set (s1 := mkState _ _ _ _ _).
    assert (Hs1 : glob_sorted (stem p) (backups s1) =
                  lastn 5 (glob_sorted (stem p) (backups s) ++ [snap_name (stem p) (now env)])).
    { apply glob_sorted_backups_after. intros x Hx.
      apply (Hlt x (env, data) Hx). now left. }
    destruct (IH s1 data) as [Hok Hlist].
    + apply lookup_insert_eq.
    + exact Hall.
    + exact Hsorted.
    + intros x ed Hx Hed. rewrite Hs1 in Hx. apply elem_of_lastn in Hx.
      apply elem_of_app in Hx as [Hx|Hx].
      * apply (Hlt x ed Hx). now right.
      * apply list_elem_of_singleton in Hx. subst x.
        rewrite Forall_forall in Hall.
        rewrite compare_snap_name; [| exact Hwf | apply Hall; now apply list_elem_of_In].
        rewrite Forall_forall in Hfirst. apply Hfirst.
        apply list_elem_of_In.
        unfold save_times. apply in_map_iff. now exists ed.
    + split; [exact Hok|]. rewrite Hlist, Hs1. destruct r as [|ed' r'].
      * reflexivity.
      * rewrite lastn_app_lastn. now rewrite <- app_assoc.
Qed.

Lemma lastn_snap_names stem_ k l :
  lastn k (snap_names stem_ l) = snap_names stem_ (lastn k l).
Proof.
  unfold lastn, snap_names. rewrite length_map. apply skipn_map.
Qed.

Lemma lastn_cons_long {A} k (x : A) l :
  k <= length l -> lastn k (x :: l) = lastn k l.
Proof.
  intros H. unfold lastn. simpl length.
  replace (S (length l) - k) with (S (length l - k)) by lia. reflexivity.
Qed.

Lemma length_lastn {A} k (l : list A) : k <= length l -> length (lastn k l) = k.
Proof. intros H. unfold lastn. rewrite length_drop. lia. Qed.

(** C4, as the code has it: more than five consecutive saves of one store,
    every backup copy going through, each save at a later second than the
    one before and than every snapshot of the store already in the backup
    directory, leave exactly five snapshots of the store, those of the five
    last saves.  The trim keeps the five names that sort last, and for the
    stamps of well-formed clock readings sorting the names is sorting by
    time. *)
Theorem C4_retention_five_latest p l s :
  Forall (fun ed => copy_ok (fst ed) = true /\ wf_datetime (now (fst ed))) l ->
  StronglySorted dt_lt (save_times l) ->
  (forall x ed, x ∈ glob_sorted (stem p) (backups s) -> In ed l ->
     String.compare x (snap_name (stem p) (now (fst ed))) = Lt) ->
  5 < length l ->
  let out := saves p l s in
  fst out = Ok tt /\
  glob_sorted (stem p) (backups (snd out)) = snap_names (stem p) (lastn 5 l) /\
  length (glob_sorted (stem p) (backups (snd out))) = 5 /\
  (forall a b, wf_datetime a -> wf_datetime b ->
     String.compare (snap_name (stem p) a) (snap_name (stem p) b) = dt_compare a b).
Proof.
  intros Hall Hsorted Hlt Hlen out.
  assert (Hmain : fst out = Ok tt /\
            glob_sorted (stem p) (backups (snd out)) = snap_names (stem p) (lastn 5 l)).
  { subst out. destruct (files s !! path_name p) as [old|] eqn:Hf.
    - destruct (saves_existing p l s old Hf Hall Hsorted Hlt) as [Hok Hlist].
      split; [exact Hok|]. rewrite Hlist.
      destruct l as [|ed r]; [simpl in Hlen; lia|].
      rewrite lastn_app_long by (unfold snap_names; rewrite length_map; lia).
      apply lastn_snap_names.
    - destruct l as [|[env data] r]; [simpl in Hlen; lia|]. simpl in Hlen.
      apply Forall_cons in Hall as [_ Hall].
      apply StronglySorted_inv in Hsorted as [Hsorted _].
      rewrite saves_cons. simpl fst. simpl snd.
      rewrite (bind_ok _ _ _ _ _ (json_dump_fresh env p data s Hf)).
      set (s1 := mkState _ _ _ _ _).
      destruct (saves_existing p r s1 data) as [Hok Hlist];
        [apply lookup_insert_eq | exact Hall | exact Hsorted | |].
      { intros x ed Hx Hed. apply (Hlt x ed Hx). now right. }
      split; [exact Hok|]. rewrite Hlist.
      destruct r as [|ed r']; [simpl in Hlen; lia|].
      rewrite lastn_app_long by (unfold snap_names; rewrite length_map; simpl in *; lia).
      rewrite lastn_snap_names. f_equal. symmetry. apply lastn_cons_long. lia. }
  destruct Hmain as [Hok Hlist]. split; [exact Hok|]. split; [exact Hlist|].
  split.
  - rewrite Hlist. unfold snap_names. rewrite length_map. apply length_lastn. lia.
  - intros a b Ha Hb. now apply compare_snap_name.
Qed.

Lemma C4_retention_witness :
  let out := saves WORDS_FILE seven_saves s_two in
  fst out = Ok tt /\
  glob_sorted "words" (backups (snd out)) =
    ["words_2024-01-02_030402.json"; "words_2024-01-02_030403.json";
     "words_2024-01-02_030404.json"; "words_2024-01-02_030405.json";
     "words_2024-01-02_030406.json"] /\
  length (glob_sorted "words" (backups (snd out))) = 5.
Proof.
  assert (Hall : Forall (fun ed => copy_ok (fst ed) = true /\
                                   wf_datetime (now (fst ed))) seven_saves).
  { unfold seven_saves. simpl.
    repeat (apply Forall_cons_2;
            [split; [reflexivity | unfold wf_datetime; simpl; lia] |]).
    apply Forall_nil_2. }
  assert (Hsorted : StronglySorted dt_lt (save_times seven_saves)).
  { unfold seven_saves, save_times. simpl.
    repeat (apply SSorted_cons;
            [| repeat (apply Forall_cons_2; [reflexivity|]); apply Forall_nil_2]).
    apply SSorted_nil. }
  destruct (C4_retention_five_latest WORDS_FILE seven_saves s_two Hall Hsorted)
    as (Hok & Hlist & Hlen & _).
  - intros x ed Hx _. vm_compute in Hx. now apply elem_of_nil in Hx.
  - simpl. lia.
  - split; [exact Hok|]. split; [exact Hlist | exact Hlen].
Defined.

(** C4 as stated fails: six saves within one second write the same
    snapshot name six times, and one snapshot is left, not five. *)
Lemma C4_counterexample :
  let out := saves WORDS_FILE same_second_saves s_two in
  fst out = Ok tt /\
  glob_sorted "words" (backups (snd out)) = ["words_2024-01-02_030405.json"] /\
  length (glob_sorted "words" (backups (snd out))) <> 5.
Proof. vm_compute. repeat split; try reflexivity. discriminate. Qed.

(* ================================================================= *)
(** * Further properties of the code *)

(** ** The stores *)

(** X1: A save whose backup copy goes through, then a load: the load returns
    what was saved and changes nothing, for both stores. *)
Theorem save_then_load env (ws : Words) (ls : list string) s :
  copy_ok env = true ->
  (let s1 := snd (save_words env ws s) in
   fst (save_words env ws s) = Ok tt /\ load_words s1 = (Ok ws, s1)) /\
  (let s1 := snd (save_learned env ls s) in
   fst (save_learned env ls s) = Ok tt /\ load_learned s1 = (Ok ls, s1)).
Proof.
  intros Hc. split; cbv zeta.
  - unfold save_words.
    destruct (json_dump_ok env WORDS_FILE (JObject ws) s Hc) as (b' & evs & _ & E).
    rewrite E. simpl. split; [reflexivity|].
    match goal with |- load_words ?st = _ => pose proof (load_words_spec st) as H end.
    simpl in H. rewrite lookup_insert_eq in H. exact H.
  - unfold save_learned.
    destruct (json_dump_ok env LEARNED_FILE (JArray ls) s Hc) as (b' & evs & _ & E).
    rewrite E. simpl. split; [reflexivity|].
    match goal with |- load_learned ?st = _ => pose proof (load_learned_spec st) as H end.
    simpl in H. rewrite lookup_insert_eq in H. exact H.
Qed.

Lemma save_then_load_witness :
  load_words (snd (save_words env_ok [("cat", cat)] s_two))
  = (Ok [("cat", cat)], snd (save_words env_ok [("cat", cat)] s_two)) /\
  load_learned (snd (save_learned env_ok ["dog"] s_two))
  = (Ok ["dog"], snd (save_learned env_ok ["dog"] s_two)).
Proof.
  destruct (save_then_load env_ok [("cat", cat)] ["dog"] s_two eq_refl)
    as [[_ Hw] [_ Hl]].
  split; [exact Hw | exact Hl].
Defined.

(** X2: A load that succeeds leaves a state on which loading again returns the
    same repository and changes nothing; it makes no backup; and when the
    store file was missing it returns the empty repository and the file now
    holds the empty object. *)
Theorem load_words_settles s (ws : Words) :
  fst (load_words s) = Ok ws ->
  let s1 := snd (load_words s) in
  load_words s1 = (Ok ws, s1) /\
  backups s1 = backups s /\
  ss_words s1 = ss_words s /\
  (files s !! path_name WORDS_FILE = None ->
   ws = [] /\ files s1 !! path_name WORDS_FILE = Some (JObject [])).
Proof.
  intros Hok. pose proof (load_words_spec s) as H.
  destruct (files s !! path_name WORDS_FILE) as [[ws0|l]|] eqn:Hf;
    rewrite H in Hok |- *; simpl in *; try discriminate.
  - injection Hok as <-. split; [exact H|]. repeat split; auto; discriminate.
  - injection Hok as <-.
    match goal with |- load_words ?st = _ /\ _ => pose proof (load_words_spec st) as H' end.
    simpl in H'. rewrite lookup_insert_eq in H'.
    repeat split; auto. apply lookup_insert_eq.
Qed.

Lemma load_words_settles_witness :
  let s1 := snd (load_words (mkState None None ∅ ∅ [])) in
  load_words s1 = (Ok [], s1) /\
  files s1 !! path_name WORDS_FILE = Some (JObject []).
Proof.
  assert (Hok : fst (load_words (mkState None None ∅ ∅ [])) = Ok [])
    by (vm_compute; reflexivity).
  destruct (load_words_settles (mkState None None ∅ ∅ []) [] Hok)
    as (H1 & _ & _ & H4).
  split; [exact H1 | apply H4; reflexivity].
Defined.

Lemma length_lastn_le {A} k (l : list A) : length (lastn k l) <= k.
Proof. unfold lastn. rewrite length_drop. lia. Qed.

(** X3: Whatever the clock shows and whatever the backup directory holds, a
    save over an existing store file whose copy goes through leaves at most
    five snapshots of that store; a save that creates the file leaves the
    backup directory as it was. *)
Theorem save_leaves_at_most_five env p data s :
  copy_ok env = true ->
  let s1 := snd (_json_dump env p data s) in
  (is_Some (files s !! path_name p) ->
   length (glob_sorted (stem p) (backups s1)) <= 5) /\
  (files s !! path_name p = None -> backups s1 = backups s).
Proof.
  intros Hc. cbv zeta. split.
  - intros [old Hf]. rewrite (json_dump_existing env p data old s Hf Hc). simpl.
    unfold backups_after. cbv zeta. rewrite glob_sorted_trim.
    apply length_lastn_le.
  - intros Hf. now rewrite (json_dump_fresh env p data s Hf).
Qed.

Lemma save_leaves_at_most_five_witness :
  length (glob_sorted "words"
            (backups (snd (_json_dump env_ok WORDS_FILE (JObject []) s_two)))) <= 5.
Proof.
  destruct (save_leaves_at_most_five env_ok WORDS_FILE (JObject []) s_two eq_refl)
    as [H _].
  apply H. eexists. reflexivity.
Defined.

Lemma trimmed_matches stem_ (b : gmap string json) n :
  n ∈ trimmed stem_ b -> glob_match stem_ n = true.
Proof.
  unfold trimmed. simpl. intros H.
  assert (Hin : n ∈ glob_sorted stem_ b).
  { rewrite <- (take_drop (length (glob_sorted stem_ b) - 5) (glob_sorted stem_ b)).
    apply elem_of_app. now left. }
  now apply (glob_sorted_spec stem_ b) in Hin as [_ Hm].
Qed.

(** A save changes no file of the backup directory whose name does not
    match the pattern of the store it saves. *)
Lemma json_dump_other_files env p data s n :
  glob_match (stem p) n = false ->
  backups (snd (_json_dump env p data s)) !! n = backups s !! n.
Proof.
  intros Hn. destruct (files s !! path_name p) as [old|] eqn:Hf.
  - destruct (copy_ok env) eqn:Hc.
    + rewrite (json_dump_existing env p data old s Hf Hc). simpl.
      unfold backups_after. cbv zeta. rewrite lookup_unlink_all.
      destruct (decide (n ∈ trimmed (stem p)
                  (<[snap_name (stem p) (now env) := old]> (backups s)))) as [Hin|_].
      * apply trimmed_matches in Hin. congruence.
      * apply lookup_insert_ne. intros E.
        rewrite <- E, glob_match_snap_name in Hn. discriminate.
    + now rewrite (json_dump_copy_refused env p data old s Hf Hc).
  - now rewrite (json_dump_fresh env p data s Hf).
Qed.

Lemma strip_prefix_cons a p c r :
  strip_prefix (String a p) (String c r) =
  if Ascii.eqb a c then strip_prefix p r else None.
Proof. reflexivity. Qed.

Lemma words_pattern_not_learned n :
  glob_match (stem WORDS_FILE) n = true ->
  glob_match (stem LEARNED_FILE) n = false.
Proof.
  unfold glob_match.
  change (stem WORDS_FILE +:+ "_") with (String "w" "ords_").
  change (stem LEARNED_FILE +:+ "_") with (String "l" "earned_words_").
  destruct n as [|c r]; [reflexivity|].
  rewrite !strip_prefix_cons.
  destruct (Ascii.eqb_spec "w" c) as [<-|Hne]; [reflexivity|].
  intros H. discriminate H.
Qed.

Lemma learned_pattern_not_words n :
  glob_match (stem LEARNED_FILE) n = true ->
  glob_match (stem WORDS_FILE) n = false.
Proof.
  intros H. destruct (glob_match (stem WORDS_FILE) n) eqn:E; [|reflexivity].
  apply words_pattern_not_learned in E. congruence.
Qed.

(** X4: The two stores share the backup directory without touching each
    other's snapshots: saving the learned list changes no file matching the
    pattern of the words store, saving the words changes no file matching
    the pattern of the learned store, and neither changes a file that
    matches neither pattern.  This holds whatever the save's outcome. *)
Theorem stores_keep_apart env s n :
  (glob_match (stem WORDS_FILE) n = true ->
   forall ls, backups (snd (save_learned env ls s)) !! n = backups s !! n) /\
  (glob_match (stem LEARNED_FILE) n = true ->
   forall ws, backups (snd (save_words env ws s)) !! n = backups s !! n) /\
  (glob_match (stem WORDS_FILE) n = false ->
   glob_match (stem LEARNED_FILE) n = false ->
   forall ws ls,
     backups (snd (save_words env ws s)) !! n = backups s !! n /\
     backups (snd (save_learned env ls s)) !! n = backups s !! n).
Proof.
  unfold save_words, save_learned. split; [|split].
  - intros H ls. apply json_dump_other_files. now apply words_pattern_not_learned.
  - intros H ws. apply json_dump_other_files. now apply learned_pattern_not_words.
  - intros Hw Hl ws ls. split; now apply json_dump_other_files.
Qed.

Lemma stores_keep_apart_witness :
  let s := snd (save_words env_ok [] s_two) in
  backups (snd (save_learned (at_second 9) [] s)) !! "words_2024-01-02_030405.json"
  = backups s !! "words_2024-01-02_030405.json" /\
  backups s !! "words_2024-01-02_030405.json" = Some (JObject [("cat", cat); ("dog", dog)]).
Proof.
  split; [|reflexivity].
  destruct (stores_keep_apart (at_second 9) (snd (save_words env_ok [] s_two))
              "words_2024-01-02_030405.json") as [H _].
  apply H. reflexivity.
Defined.

(** ** The sync *)

Lemma rows_to_words_snoc rows r :
  rows_to_words (rows ++ [r]) =
  Dict.set (row_word r) (row_entry r) (rows_to_words rows).
Proof. unfold rows_to_words. now rewrite fold_left_app. Qed.

Lemma keys_rows_to_words rows :
  forall w, In w (Dict.keys (rows_to_words rows)) <-> In w (map row_word rows).
Proof.
  induction rows as [|r rows IH] using rev_ind; intros w; [reflexivity|].
  rewrite rows_to_words_snoc, keys_set, map_app, in_app_iff. simpl.
  destruct (Dict.mem (row_word r) (rows_to_words rows)) eqn:Hm.
  - apply mem_keys in Hm. rewrite IH. split; [tauto|].
    intros [H|[<-|[]]]; [exact H | now apply IH].
  - rewrite in_app_iff, IH. simpl. tauto.
Qed.

Lemma get_rows_to_words rows w :
  Dict.get w (rows_to_words rows) = option_map row_entry (last_row w rows).
Proof.
  unfold last_row. induction rows as [|r rows IH] using rev_ind; [reflexivity|].
  rewrite rows_to_words_snoc, rev_unit. simpl.
  destruct (String.eqb_spec (row_word r) w) as [E|Hne].
  - subst w. apply get_set_eq.
  - rewrite get_set_ne by exact Hne. exact IH.
Qed.

(** X5: When the table names a word more than once, the last row wins: the
    repository built from the rows has, under each word, the entry of the
    last row with that word, it has no other word, and no word twice. *)
Theorem rows_to_words_last_row_wins rows w :
  Dict.get w (rows_to_words rows) = option_map row_entry (last_row w rows) /\
  (In w (Dict.keys (rows_to_words rows)) <-> In w (map row_word rows)) /\
  NoDup (Dict.keys (rows_to_words rows)).
Proof.
  split; [apply get_rows_to_words|].
  split; [apply keys_rows_to_words | apply NoDup_rows_to_words].
Qed.

Lemma page_row_ok p r s s' :
  page_row p s = (Ok r, s') <-> s' = s /\ row_of_page p r.
Proof.
  unfold page_row, first_plain_text, row_of_page, bind, ret, raise.
  destruct (prop_word p) as [[|w ws]|]; simpl;
    try (split; [discriminate | intros [_ (? & ? & ? & ? & ? & ? & _)]; discriminate]).
  destruct (prop_mean p) as [[|m ms]|]; simpl;
    try (split; [discriminate | intros [_ (? & ? & ? & ? & ? & _ & ? & _)]; discriminate]).
  destruct (prop_memo p) as [[|t mm]|]; simpl;
    try (split; [discriminate | intros [_ (? & ? & ? & ? & ? & _ & _ & ? & _)]; discriminate]).
  - split.
    + intros H. injection H as <- <-. split; [reflexivity|].
      exists w, ws, m, ms, []. auto.
    + intros [-> (w' & ws' & m' & ms' & mm' & E1 & E2 & E3 & ->)].
      injection E1 as <- <-. injection E2 as <- <-. injection E3 as <-. reflexivity.
  - split.
    + intros H. injection H as <- <-. split; [reflexivity|].
      exists w, ws, m, ms, (t :: mm). auto.
    + intros [-> (w' & ws' & m' & ms' & mm' & E1 & E2 & E3 & ->)].
      injection E1 as <- <-. injection E2 as <- <-. injection E3 as <-. reflexivity.
Qed.

(** What [append_rows] returns is the accumulator followed by one row for
    each record, in order. *)
Lemma append_rows_ok results :
  forall acc rows s s',
    append_rows results acc s = (Ok rows, s') <->
    s' = s /\ exists rs, Forall2 row_of_page results rs /\ rows = acc ++ rs.
Proof.
  induction results as [|p rest IH]; intros acc rows s s'.
  - simpl. unfold ret. split.
    + intros H. injection H as <- <-. split; [reflexivity|].
      exists []. split; [constructor | now rewrite app_nil_r].
    + intros [-> [rs [Hf ->]]]. inversion Hf. now rewrite app_nil_r.
  - change (append_rows (p :: rest) acc s)
      with (bind (page_row p) (fun row => append_rows rest (acc ++ [row])) s).
    destruct (page_row_uniform p) as [[row Hr] | [e Hr]].
    + rewrite (bind_ok _ _ _ _ _ (Hr s)). rewrite IH.
      assert (Hrow : row_of_page p row) by (apply (page_row_ok p row s s), Hr).
      split.
      * intros [-> [rs [Hf ->]]]. split; [reflexivity|].
        exists (row :: rs). split; [now constructor | now rewrite <- app_assoc].
      * intros [-> [rs [Hf ->]]]. split; [reflexivity|].
        inversion Hf as [|? r0 ? rs0 Hp Hrest]; subst.
        exists rs0. split; [exact Hrest|].
        assert (E : page_row p s = (Ok r0, s)) by now apply page_row_ok.
        rewrite Hr in E. injection E as ->. now rewrite <- app_assoc.
    + rewrite (bind_raise _ _ _ _ _ (Hr s)). split; [discriminate|].
      intros [_ [rs [Hf _]]]. inversion Hf as [|? r0 ? rs0 Hp Hrest]; subst.
      assert (E : page_row p s = (Ok r0, s)) by now apply page_row_ok.
      rewrite Hr in E. discriminate.
Qed.

(** X6: The fetch returns rows exactly when every record of the result can be
    read (a non-empty title, a non-empty definition, a memo property); the
    rows are then one per record, in the order of the records, and the
    state is untouched.  A record that cannot be read is never skipped: the
    fetch then returns no rows at all. *)
Theorem fetch_rows_one_per_record results rows s :
  fst (fetch_notion_rows (RespResults results) s) = Ok rows <->
  Forall2 row_of_page results rows.
Proof.
  unfold fetch_notion_rows. unfold bind at 1. unfold ret.
  destruct (append_rows results [] s) as [o s'] eqn:E. simpl. split.
  - intros ->. apply append_rows_ok in E as [_ [rs [Hf ->]]]. exact Hf.
  - intros Hf.
    assert (H : append_rows results [] s = (Ok rows, s)).
    { apply append_rows_ok. split; [reflexivity|]. now exists rows. }
    rewrite H in E. now injection E as <- _.
Qed.


Lemma in_keys_get {V} k (v : V) d : In (k, v) d -> In k (Dict.keys d).
Proof. intros H. unfold Dict.keys. apply in_map_iff. now exists (k, v). Qed.






(** ** The handlers, whatever the environment answers *)

(** A save followed by the rest of a handler: either the save went
    through and the rest runs on the state with the new file, or the copy
    was refused and the handler ends there with nothing changed. *)
Lemma bind_save {A} env p data (k : unit -> M A) s :
  (exists b' evs,
     Forall is_backup_event evs /\
     bind (_json_dump env p data) k s =
     k tt (mkState (ss_words s) (ss_learned s)
                   (<[path_name p := data]> (files s)) b'
                   (trace s ++ evs ++ [EvWrite (path_name p) data]))) \/
  (copy_ok env = false /\ bind (_json_dump env p data) k s = (Raise OSError, s)).
Proof.
  destruct (json_dump_cases env p data s) as [(b' & evs & Hev & E) | [Hc E]].
  - left. exists b', evs. split; [exact Hev|]. now rewrite (bind_ok _ _ _ _ _ E).
  - right. split; [exact Hc|]. now rewrite (bind_raise _ _ _ _ _ E).
Qed.

Lemma add_handler_skips env w m memo_ clicked s :
  clicked = false \/ w = "" \/ m = "" ->
  add_handler env w m memo_ clicked s = (Ok tt, s).
Proof.
  intros [-> | [-> | ->]]; unfold add_handler.
  - reflexivity.
  - now rewrite andb_false_r.
  - now rewrite andb_false_r.
Qed.

(** What a clicked add with both fields filled does to the session, and
    how it can end. *)
Lemma add_handler_effect env w m memo_ s (ws : Words) :
  ss_words s = Some ws -> w <> "" -> m <> "" ->
  let out := add_handler env w m memo_ true s in
  ss_words (snd out) = Some (Dict.set w (mkEntry m memo_) ws) /\
  ss_learned (snd out) = ss_learned s /\
  (fst out = Ok tt \/
   (fst out = Raise OSError /\ copy_ok env = false /\
    files (snd out) = files s /\ backups (snd out) = backups s /\
    trace (snd out) = trace s)).
Proof.
  intros Hws Hw Hm out.
  assert (Hout : out =
    bind (_json_dump env WORDS_FILE (JObject (Dict.set w (mkEntry m memo_) ws)))
         (fun _ => emit (EvSuccessAdded w))
         (mkState (Some (Dict.set w (mkEntry m memo_) ws)) (ss_learned s)
                  (files s) (backups s) (trace s))).
  { subst out. unfold add_handler, save_words.
    rewrite (truthy_true w Hw), (truthy_true m Hm). simpl.
    destruct s as [sw sl f b tr]. simpl in *. subst sw. reflexivity. }
  destruct (bind_save env WORDS_FILE (JObject (Dict.set w (mkEntry m memo_) ws))
              (fun _ => emit (EvSuccessAdded w))
              (mkState (Some (Dict.set w (mkEntry m memo_) ws)) (ss_learned s)
                       (files s) (backups s) (trace s)))
    as [(b' & evs & _ & E) | [Hc E]]; rewrite E in Hout; rewrite Hout; simpl.
  - auto.
  - repeat split; auto. right. auto.
Qed.

(** X8: An add puts the entry under its word and leaves every other word, the
    order of the words and the learned list alone: an existing word keeps
    its place, a new one goes last.  This is so whether or not the save
    that follows goes through. *)
Theorem add_overwrites_in_place env w m memo_ s (ws : Words) :
  ss_words s = Some ws -> w <> "" -> m <> "" ->
  let s' := snd (add_handler env w m memo_ true s) in
  exists ws' : Words,
    ss_words s' = Some ws' /\
    Dict.get w ws' = Some (mkEntry m memo_) /\
    (forall w', w' <> w -> Dict.get w' ws' = Dict.get w' ws) /\
    Dict.keys ws' = (if Dict.mem w ws then Dict.keys ws else Dict.keys ws ++ [w]) /\
    ss_learned s' = ss_learned s.
Proof.
  intros Hws Hw Hm s'.
  destruct (add_handler_effect env w m memo_ s ws Hws Hw Hm) as (H1 & H2 & _).
  exists (Dict.set w (mkEntry m memo_) ws). split; [exact H1|].
  split; [apply get_set_eq|]. split; [|split; [apply keys_set | exact H2]].
  intros w' Hne. apply get_set_ne. congruence.
Qed.

Lemma add_overwrites_in_place_witness :
  exists ws' : Words,
    ss_words (snd (add_handler env_refused "cat" "felis" "" true s_two)) = Some ws' /\
    Dict.get "cat" ws' = Some (mkEntry "felis" "") /\
    Dict.get "dog" ws' = Some dog /\
    Dict.keys ws' = ["cat"; "dog"].
Proof.
  destruct (add_overwrites_in_place env_refused "cat" "felis" "" s_two
              [("cat", cat); ("dog", dog)] eq_refl)
    as (ws' & H1 & H2 & H3 & H4 & _); [discriminate | discriminate |].
  exists ws'. split; [exact H1|]. split; [exact H2|]. split.
  - rewrite H3 by discriminate. reflexivity.
  - rewrite H4. reflexivity.
Defined.

(** X9: When the backup copy is refused, an add has already changed the
    repository of the session: the run ends with the exception, no success
    message is shown, the store file is unchanged, and the session holds an
    entry the disk does not. *)
Theorem add_save_failure_leaves_memory_ahead env w m memo_ s (ws : Words) old :
  ss_words s = Some ws -> w <> "" -> m <> "" ->
  files s !! path_name WORDS_FILE = Some old -> copy_ok env = false ->
  add_handler env w m memo_ true s =
  (Raise OSError,
   mkState (Some (Dict.set w (mkEntry m memo_) ws)) (ss_learned s)
           (files s) (backups s) (trace s)).
Proof.
  intros Hws Hw Hm Hf Hc.
  unfold add_handler, save_words.
  rewrite (truthy_true w Hw), (truthy_true m Hm). simpl.
  destruct s as [sw sl f b tr]. simpl in *. subst sw.
  pose proof (json_dump_copy_refused env WORDS_FILE
                (JObject (Dict.set w (mkEntry m memo_) ws)) old
                (mkState (Some (Dict.set w (mkEntry m memo_) ws)) sl f b tr) Hf Hc) as E.
  run_m. now rewrite E.
Qed.

Lemma add_save_failure_witness :
  let out := add_handler env_refused "emu" "a bird" "" true s_two in
  fst out = Raise OSError /\
  ss_words (snd out) = Some [("cat", cat); ("dog", dog); ("emu", mkEntry "a bird" "")] /\
  files (snd out) = files s_two /\ trace (snd out) = [].
Proof.
  cbv zeta.
  rewrite (add_save_failure_leaves_memory_ahead env_refused "emu" "a bird" "" s_two
             [("cat", cat); ("dog", dog)] (JObject [("cat", cat); ("dog", dog)])
             eq_refl ltac:(discriminate) ltac:(discriminate) eq_refl eq_refl).
  repeat split; reflexivity.
Defined.

Lemma delete_handler_skips env1 env2 target clicked s (ws : Words) :
  ss_words s = Some ws ->
  clicked = false \/ target = None \/
    (exists t, target = Some t /\ ~ In t (Dict.keys ws)) ->
  delete_handler env1 env2 target clicked s = (Ok tt, s).
Proof.
  intros Hws H. destruct s as [sw sl f b tr]. simpl in *. subst sw.
  unfold delete_handler.
  destruct H as [-> | [-> | [t [-> Hn]]]].
  - reflexivity.
  - destruct clicked; reflexivity.
  - destruct clicked; [|reflexivity]. run_m.
    assert (Hm : Dict.mem t ws = false).
    { destruct (Dict.mem t ws) eqn:E; [|reflexivity].
      apply mem_keys in E. contradiction. }
    now rewrite Hm.
Qed.

(** X10: A delete that is not clicked, or whose select box is empty, or whose
    target is not a word of the repository, does nothing at all: no error,
    no message, no write. *)
Theorem delete_without_target_is_noop env1 env2 target clicked s (ws : Words) :
  ss_words s = Some ws ->
  clicked = false \/ target = None \/
    (exists t, target = Some t /\ ~ In t (Dict.keys ws)) ->
  delete_handler env1 env2 target clicked s = (Ok tt, s).
Proof.
  intros Hws H. destruct s as [sw sl f b tr]. simpl in *. subst sw.
  unfold delete_handler.
  destruct H as [-> | [-> | [t [-> Hn]]]].
  - reflexivity.
  - destruct clicked; reflexivity.
  - destruct clicked; [|reflexivity]. run_m.
    destruct (Dict.mem t ws) eqn:E; [|reflexivity].
    apply mem_keys in E. contradiction.
Qed.

Lemma delete_without_target_witness :
  delete_handler env_ok env_ok (Some "emu") true s_two = (Ok tt, s_two).
Proof.
  apply (delete_without_target_is_noop env_ok env_ok (Some "emu") true s_two
           [("cat", cat); ("dog", dog)] eq_refl).
  right. right. exists "emu". split; [reflexivity|].
  simpl. intros [H|[H|[]]]; discriminate.
Defined.

Lemma in_all_words_for_select (ws : Words) w :
  In w (all_words_for_select ws) <-> In w (Dict.keys ws).
Proof.
  unfold all_words_for_select. rewrite <- !list_elem_of_In.
  now rewrite merge_sort_Permutation.
Qed.

(** X11: The delete select box offers the words of the repository, each as
    often as the repository has it, in sorted order; so whatever the
    operator selects is a word of the repository, and the box is empty
    only when the repository is. *)
Theorem delete_select_offers_repository (ws : Words) choice :
  Sorted String.le (all_words_for_select ws) /\
  all_words_for_select ws ≡ₚ Dict.keys ws /\
  (forall t, delete_select (all_words_for_select ws) choice = Some t ->
             In t (Dict.keys ws)) /\
  (delete_select (all_words_for_select ws) choice = None <-> ws = []).
Proof.
  split; [apply Sorted_merge_sort; apply _|].
  split; [apply merge_sort_Permutation|].
  assert (Hperm : all_words_for_select ws ≡ₚ Dict.keys ws)
    by apply merge_sort_Permutation.
  unfold delete_select. destruct (all_words_for_select ws) as [|first rest] eqn:E.
  - split; [discriminate|]. split; [|reflexivity]. intros _.
    apply Permutation_nil in Hperm.
    destruct ws; [reflexivity | discriminate].
  - split.
    + intros t H. injection H as <-.
      apply in_all_words_for_select. rewrite E. apply selectbox_in.
    + split; [discriminate|]. intros ->. discriminate.
Qed.

(** What a clicked delete of a word of the repository does to the
    session, and how it can end. *)
Lemma delete_handler_effect env1 env2 s (ws : Words) ls W :
  ss_words s = Some ws -> ss_learned s = Some ls -> In W (Dict.keys ws) ->
  let out := delete_handler env1 env2 (Some W) true s in
  ss_words (snd out) = Some (Dict.remove W ws) /\
  ss_learned (snd out) = Some (List.filter (fun w => negb (String.eqb w W)) ls) /\
  (fst out = Ok tt \/ fst out = Raise OSError).
Proof.
  intros Hws Hls Hin out.
  assert (Hmem : Dict.mem W ws = true) by now apply mem_keys.
  destruct (get_of_key _ _ Hin) as [v Hget].
  set (ws' := Dict.remove W ws).
  set (ls' := List.filter (fun w => negb (String.eqb w W)) ls).
  assert (Hout : out =
    bind (_json_dump env1 WORDS_FILE (JObject ws'))
      (fun _ => bind get_ss_learned (fun ls'' =>
         bind (save_learned env2 ls'') (fun _ => emit (EvSuccessDeleted W))))
      (mkState (Some ws') (Some ls') (files s) (backups s) (trace s))).
  { subst out. unfold delete_handler, save_words. destruct s as [sw sl f b tr].
    simpl in *. subst sw sl. unfold Dict.pop. run_m.
    rewrite Hmem. simpl. unfold Dict.pop. rewrite Hget. reflexivity. }
  destruct (bind_save env1 WORDS_FILE (JObject ws')
              (fun _ => bind get_ss_learned (fun ls'' =>
                 bind (save_learned env2 ls'') (fun _ => emit (EvSuccessDeleted W))))
              (mkState (Some ws') (Some ls') (files s) (backups s) (trace s)))
    as [(b1 & ev1 & _ & E1) | [Hc1 E1]]; rewrite E1 in Hout; clear E1.
  - unfold bind at 1 in Hout. unfold get_ss_learned in Hout.
    unfold bind at 1 in Hout. unfold gets, ret in Hout. simpl in Hout.
    unfold save_learned in Hout.
    match type of Hout with
    | _ = bind (_json_dump ?e ?p ?d) ?k ?st =>
        destruct (bind_save e p d k st) as [(b2 & ev2 & _ & E2) | [Hc2 E2]]
    end; rewrite E2 in Hout; rewrite Hout; simpl; auto.
  - rewrite Hout. simpl. auto.
Qed.

Lemma remove_set_new {V} k (v : V) d :
  ~ In k (Dict.keys d) -> Dict.remove k (Dict.set k v d) = d.
Proof.
  unfold Dict.remove. induction d as [|[k' v'] r IH]; intros Hn; simpl.
  - now rewrite bool_decide_eq_true_2.
  - simpl in Hn. destruct (decide (k = k')) as [->|Hne]; [tauto|]. simpl.
    rewrite bool_decide_eq_false_2 by congruence. simpl.
    f_equal. apply IH. tauto.
Qed.

(** X12: Adding a word the repository does not have and then deleting it gives
    back the repository as it was, order included, whatever the saves do;
    the learned list only loses that word. *)
Theorem add_then_delete_restores env0 env1 env2 w m memo_ s (ws : Words) ls :
  ss_words s = Some ws -> ss_learned s = Some ls ->
  w <> "" -> m <> "" -> ~ In w (Dict.keys ws) ->
  let s1 := snd (add_handler env0 w m memo_ true s) in
  let s2 := snd (delete_handler env1 env2 (Some w) true s1) in
  ss_words s2 = Some ws /\
  ss_learned s2 = Some (List.filter (fun x => negb (String.eqb x w)) ls).
Proof.
  intros Hws Hls Hw Hm Hnew s1 s2.
  destruct (add_handler_effect env0 w m memo_ s ws Hws Hw Hm) as (H1 & H2 & _).
  fold s1 in H1, H2. rewrite Hls in H2.
  assert (Hin : In w (Dict.keys (Dict.set w (mkEntry m memo_) ws))).
  { apply mem_keys. unfold Dict.mem. now rewrite get_set_eq. }
  destruct (delete_handler_effect env1 env2 s1 _ ls w H1 H2 Hin) as (H3 & H4 & _).
  fold s2 in H3, H4. split; [|exact H4].
  rewrite H3. f_equal. now apply remove_set_new.
Qed.

Lemma add_then_delete_witness :
  let s1 := snd (add_handler env_ok "emu" "a bird" "" true s_two) in
  let s2 := snd (delete_handler env_ok env_ok (Some "emu") true s1) in
  ss_words s2 = Some [("cat", cat); ("dog", dog)] /\
  ss_learned s2 = Some ["cat"].
Proof.
  apply (add_then_delete_restores env_ok env_ok env_ok "emu" "a bird" "" s_two
           [("cat", cat); ("dog", dog)] ["cat"] eq_refl eq_refl);
    try discriminate.
  simpl. intros [H|[H|[]]]; discriminate.
Defined.

(** ** The study modes *)






(** X14: A learned word that the repository does not have cannot be reviewed:
    selecting it ends the run with [KeyError] before any button is looked
    at, and nothing changes, so the relearn button cannot take it off the
    list either. *)
Theorem review_of_missing_word_raises env choice btn s (ws : Words) ls W :
  ss_words s = Some ws -> ss_learned s = Some ls ->
  nth_error ls choice = Some W -> ~ In W (Dict.keys ws) ->
  review_mode env choice btn s = (Raise (KeyError W), s).
Proof.
  intros Hws Hls Hnth Hn.
  destruct ls as [|first rest]; [destruct choice; discriminate|].
  assert (Hsel : selectbox (first :: rest) first choice = W).
  { unfold selectbox. now apply nth_error_nth. }
  assert (Hget : Dict.get W ws = None) by now apply get_None_keys.
  destruct s as [sw sl f b tr]. simpl in *. subst sw sl.
  unfold review_mode, review_card, words_item. run_m.
  rewrite Hsel, Hget. reflexivity.
Qed.

Lemma review_of_missing_word_witness :
  review_mode env_ok 0 true s_orphan = (Raise (KeyError "dog"), s_orphan).
Proof.
  apply (review_of_missing_word_raises env_ok 0 true s_orphan
           [("cat", cat)] ["dog"] "dog" eq_refl eq_refl eq_refl).
  simpl. intros [H|[]]. discriminate.
Defined.

(** What the learning mode does to the session and the disk, for either
    value of the button, and how it can end. *)
Lemma learning_mode_effect env btn s (ws : Words) ls :
  ss_words s = Some ws -> ss_learned s = Some ls ->
  let out := learning_mode env btn s in
  ss_words (snd out) = Some ws /\
  benign (fst out) /\
  (ss_learned (snd out) = Some ls \/
   exists cur q, btn = true /\ queue ws ls = cur :: q /\
                 ss_learned (snd out) = Some (ls ++ [cur])) /\
  (btn = false ->
   ss_learned (snd out) = Some ls /\ files (snd out) = files s /\
   backups (snd out) = backups s).
Proof.
  intros Hws Hls out. subst out.
  destruct (queue ws ls) as [|cur q] eqn:Hq.
  - destruct (learning_all_learned env btn s ws ls Hws Hls Hq) as (Ho & Hw & Hl).
    assert (Hfb : files (snd (learning_mode env btn s)) = files s /\
                  backups (snd (learning_mode env btn s)) = backups s).
    { unfold learning_mode. destruct s as [sw sl f b tr]. simpl in *. subst sw sl.
      run_m. rewrite Hq. run_m. auto. }
    rewrite Ho. simpl. repeat split; auto; tauto.
  - assert (Hcur : In cur (queue ws ls)) by (rewrite Hq; now left).
    apply in_queue in Hcur as [Hkey _].
    destruct (get_of_key _ _ Hkey) as [e He].
    destruct btn.
    + assert (Hout : exists tr, learning_mode env true s =
        bind (_json_dump env LEARNED_FILE (JArray (ls ++ [cur]))) (fun _ => st_rerun)
          (mkState (Some ws) (Some (ls ++ [cur])) (files s) (backups s) tr)).
      { unfold learning_mode, words_item, main_card, save_learned.
        destruct s as [sw sl f b tr]. simpl in *. subst sw sl.
        run_m. rewrite Hq. rewrite He. run_m. eexists. reflexivity. }
      destruct Hout as [tr Hout].
      match type of Hout with
      | _ = bind (_json_dump ?e0 ?p ?d) ?k ?st =>
          destruct (bind_save e0 p d k st) as [(b2 & ev2 & _ & E2) | [Hc2 E2]]
      end; rewrite E2 in Hout; rewrite Hout; simpl.
      * repeat split; auto; try discriminate. right. eauto.
      * repeat split; auto; try discriminate. right. eauto.
    + assert (Hout : exists tr, learning_mode env false s =
        (Ok tt, mkState (Some ws) (Some ls) (files s) (backups s) tr)).
      { unfold learning_mode, words_item, main_card.
        destruct s as [sw sl f b tr]. simpl in *. subst sw sl.
        run_m. rewrite Hq. rewrite He. run_m. eexists. reflexivity. }
      destruct Hout as [tr Hout]. rewrite Hout. simpl. repeat split; auto.
Qed.

Lemma list_remove_sub x l l' :
  list_remove x l = Some l' ->
  (forall y, In y l' -> In y l) /\ (NoDup l -> NoDup l' /\ ~ In x l').
Proof.
  revert l'. induction l as [|y r IH]; intros l' H; [discriminate|]. simpl in H.
  destruct (String.eqb y x) eqn:E.
  - apply String.eqb_eq in E. subst y. injection H as <-.
    split; [intros z Hz; now right|]. intros Hnd.
    apply NoDup_cons in Hnd as [Hx Hnd]. split; [exact Hnd|].
    now rewrite <- list_elem_of_In.
  - apply String.eqb_neq in E.
    destruct (list_remove x r) as [r'|] eqn:Er; [|discriminate].
    injection H as <-. destruct (IH r' eq_refl) as [Hsub Hnd'].
    split.
    + intros z [->|Hz]; [now left | right; now apply Hsub].
    + intros Hnd. apply NoDup_cons in Hnd as [Hy Hnd].
      destruct (Hnd' Hnd) as [Hnd2 Hx]. split.
      * apply NoDup_cons. split; [|exact Hnd2].
        rewrite list_elem_of_In. intros Hin. apply Hy.
        apply list_elem_of_In. now apply Hsub.
      * intros [->|Hin]; [congruence | contradiction].
Qed.

(** What the review mode does to the session and the disk when every
    learned word is in the repository, and how it can end. *)
Lemma review_mode_effect env choice btn s (ws : Words) ls :
  ss_words s = Some ws -> ss_learned s = Some ls -> learned_in_words ws ls ->
  let out := review_mode env choice btn s in
  ss_words (snd out) = Some ws /\
  benign (fst out) /\
  (ss_learned (snd out) = Some ls \/
   exists W l', btn = true /\ In W ls /\ list_remove W ls = Some l' /\
                ss_learned (snd out) = Some l') /\
  (btn = false ->
   ss_learned (snd out) = Some ls /\ files (snd out) = files s /\
   backups (snd out) = backups s).
Proof.
  intros Hws Hls Hinv out. subst out.
  destruct ls as [|first rest].
  - unfold review_mode. destruct s as [sw sl f b tr]. simpl in *. subst sw sl.
    run_m. repeat split; auto.
  - set (W := selectbox (first :: rest) first choice).
    assert (HW : In W (first :: rest)) by apply selectbox_in.
    destruct (get_of_key _ _ (Hinv W HW)) as [e He].
    destruct (list_remove_present W (first :: rest) HW) as (l' & Hrm & _ & _).
    destruct btn.
    + assert (Hout : exists tr, review_mode env choice true s =
        bind (_json_dump env LEARNED_FILE (JArray l')) (fun _ => st_rerun)
          (mkState (Some ws) (Some l') (files s) (backups s) tr)).
      { unfold review_mode, review_card, words_item, main_card, save_learned.
        destruct s as [sw sl f b tr]. simpl in *. subst sw sl.
        run_m. fold W. rewrite He. run_m. fold W. rewrite Hrm. run_m.
        eexists. reflexivity. }
      destruct Hout as [tr Hout].
      match type of Hout with
      | _ = bind (_json_dump ?e0 ?p ?d) ?k ?st =>
          destruct (bind_save e0 p d k st) as [(b2 & ev2 & _ & E2) | [Hc2 E2]]
      end; rewrite E2 in Hout; rewrite Hout; simpl.
      * repeat split; auto; try discriminate. right. exists W, l'. auto.
      * repeat split; auto; try discriminate. right. exists W, l'. auto.
    + assert (Hout : exists tr, review_mode env choice false s =
        (Ok tt, mkState (Some ws) (Some (first :: rest)) (files s) (backups s) tr)).
      { unfold review_mode, review_card, words_item, main_card.
        destruct s as [sw sl f b tr]. simpl in *. subst sw sl.
        run_m. fold W. rewrite He. run_m. eexists. reflexivity. }
      destruct Hout as [tr Hout]. rewrite Hout. simpl. repeat split; auto.
Qed.

(** ** Whole runs *)

Lemma keeps_consistent_bind {A B} (m : M A) (f : A -> M B) :
  keeps_consistent m -> (forall a, keeps_consistent (f a)) ->
  keeps_consistent (bind m f).
Proof.
  intros Hm Hf s Hs. unfold bind. destruct (Hm s Hs) as [Hc Hb].
  destruct (m s) as [[a| | |e] s']; simpl in *; auto.
  now apply Hf.
Qed.

Lemma keeps_consistent_unchanged {A} (m : M A) :
  (forall s, consistent s -> exists a, m s = (Ok a, s)) -> keeps_consistent m.
Proof.
  intros H s Hs. destruct (H s Hs) as [a ->]. simpl. auto.
Qed.

Lemma NoDup_keys_remove {V} k (d : list (string * V)) :
  NoDup (Dict.keys d) -> NoDup (Dict.keys (Dict.remove k d)).
Proof.
  unfold Dict.keys, Dict.remove. induction d as [|[k' v'] r IH]; simpl; intros H.
  - constructor.
  - apply NoDup_cons in H as [Hk H].
    destruct (bool_decide (k' = k)); simpl; [now apply IH|].
    apply NoDup_cons. split; [|now apply IH].
    rewrite list_elem_of_In, in_map_iff. intros [kv [E Hin]].
    apply Hk. apply list_elem_of_In, in_map_iff. exists kv. split; [exact E|].
    now apply filter_In in Hin as [Hin _].
Qed.

Lemma in_keys_set {V} k k' (v : V) d :
  In k' (Dict.keys d) -> In k' (Dict.keys (Dict.set k v d)).
Proof.
  intros H. rewrite keys_set. destruct (Dict.mem k d); [exact H|].
  apply in_or_app. now left.
Qed.

Lemma session_init_skips resp env s (ws : Words) :
  ss_words s = Some ws -> session_init resp env s = (Ok tt, s).
Proof.
  intros H. unfold session_init. unfold bind at 1. unfold gets. now rewrite H.
Qed.

Lemma get_ss_words_ok s (ws : Words) :
  ss_words s = Some ws -> get_ss_words s = (Ok ws, s).
Proof. intros H. unfold get_ss_words, bind, gets. now rewrite H. Qed.

Lemma add_handler_keeps_consistent env w m memo_ clicked :
  keeps_consistent (add_handler env w m memo_ clicked).
Proof.
  intros s Hs.
  destruct clicked; [|rewrite add_handler_skips by auto; simpl; auto].
  destruct (string_dec w "") as [->|Hw];
    [rewrite add_handler_skips by auto; simpl; auto|].
  destruct (string_dec m "") as [->|Hm];
    [rewrite add_handler_skips by auto; simpl; auto|].
  destruct Hs as (ws & ls & Hws & Hls & Hnd & Hndl & Hinv).
  destruct (add_handler_effect env w m memo_ s ws Hws Hw Hm) as (H1 & H2 & H3).
  split.
  - exists (Dict.set w (mkEntry m memo_) ws), ls.
    split; [exact H1|]. split; [congruence|].
    split; [now apply NoDup_keys_set|]. split; [exact Hndl|].
    intros x Hx. apply in_keys_set. now apply Hinv.
  - destruct H3 as [-> | [-> _]]; exact I.
Qed.

Lemma delete_handler_keeps_consistent env1 env2 target clicked :
  keeps_consistent (delete_handler env1 env2 target clicked).
Proof.
  intros s Hs. pose proof Hs as (ws & ls & Hws & Hls & Hnd & Hndl & Hinv).
  destruct clicked;
    [|rewrite (delete_handler_skips env1 env2 target false s ws Hws)
        by auto; simpl; auto].
  destruct target as [t|];
    [|rewrite (delete_handler_skips env1 env2 None true s ws Hws)
        by auto; simpl; auto].
  destruct (in_dec string_dec t (Dict.keys ws)) as [Hin|Hnin];
    [|rewrite (delete_handler_skips env1 env2 (Some t) true s ws Hws)
        by eauto; simpl; auto].
  destruct (delete_handler_effect env1 env2 s ws ls t Hws Hls Hin) as (H1 & H2 & H3).
  split.
  - eexists _, _. split; [exact H1|]. split; [exact H2|].
    split; [now apply NoDup_keys_remove|]. split.
    + apply NoDup_ListNoDup, List.NoDup_filter. now apply NoDup_ListNoDup.
    + intros x Hx. apply filter_In in Hx as [Hx Hne].
      apply keys_remove_other; [|now apply Hinv].
      intros ->. now rewrite String.eqb_refl in Hne.
  - destruct H3 as [-> | ->]; exact I.
Qed.

Lemma learning_mode_keeps_consistent env btn :
  keeps_consistent (learning_mode env btn).
Proof.
  intros s (ws & ls & Hws & Hls & Hnd & Hndl & Hinv).
  destruct (learning_mode_effect env btn s ws ls Hws Hls) as (H1 & H2 & H3 & _).
  split; [|exact H2].
  destruct H3 as [H3 | (cur & q & _ & Hq & H3)].
  - exists ws, ls. auto.
  - assert (Hcur : In cur (queue ws ls)) by (rewrite Hq; now left).
    apply in_queue in Hcur as [Hk Hn].
    exists ws, (ls ++ [cur]). split; [exact H1|]. split; [exact H3|].
    split; [exact Hnd|]. split.
    + apply NoDup_app. split; [exact Hndl|]. split; [|apply NoDup_singleton].
      intros x Hx Hx'. apply list_elem_of_singleton in Hx'. subst x.
      now apply list_elem_of_In in Hx.
    + intros x Hx. apply in_app_or in Hx as [Hx|[<-|[]]]; auto.
Qed.

Lemma review_mode_keeps_consistent env choice btn :
  keeps_consistent (review_mode env choice btn).
Proof.
  intros s (ws & ls & Hws & Hls & Hnd & Hndl & Hinv).
  destruct (review_mode_effect env choice btn s ws ls Hws Hls Hinv)
    as (H1 & H2 & H3 & _).
  split; [|exact H2].
  destruct H3 as [H3 | (W & l' & _ & HW & Hrm & H3)].
  - exists ws, ls. auto.
  - destruct (list_remove_sub W ls l' Hrm) as [Hsub Hnd'].
    exists ws, l'. split; [exact H1|]. split; [exact H3|].
    split; [exact Hnd|]. split; [now apply Hnd'|].
    intros x Hx. apply Hinv, Hsub, Hx.
Qed.

Section SearchFacts.

Variable lower : string -> string.

Lemma search_handler_reads query s (ws : Words) :
  ss_words s = Some ws ->
  search_handler lower query s =
  (Ok (if truthy query then Some (search_results lower query ws) else None), s).
Proof.
  intros Hws. unfold search_handler. destruct (truthy query); [|reflexivity].
  unfold bind. now rewrite (get_ss_words_ok s ws Hws).
Qed.

Lemma script_keeps_consistent_aux i : keeps_consistent (script lower i).
Proof.
  unfold script.
  apply keeps_consistent_bind.
  { apply keeps_consistent_unchanged. intros s (ws & _ & Hws & _).
    exists tt. now apply session_init_skips with (ws := ws). }
  intros _. apply keeps_consistent_bind.
  { apply keeps_consistent_unchanged. intros s (ws & _ & Hws & _).
    exists ws. now apply get_ss_words_ok. }
  intros ws. apply keeps_consistent_bind; [apply add_handler_keeps_consistent|].
  intros _. apply keeps_consistent_bind.
  { apply keeps_consistent_unchanged. intros s (ws' & _ & Hws & _).
    eexists. exact (search_handler_reads _ s ws' Hws). }
  intros _. apply keeps_consistent_bind; [apply delete_handler_keeps_consistent|].
  intros _. destruct (in_review i).
  - apply review_mode_keeps_consistent.
  - apply learning_mode_keeps_consistent.
Qed.

(** X15: Every run of the script that starts in a consistent session (no
    duplicate word, no duplicate learned word, every learned word in the
    repository) ends in one, whatever the operator does, whatever the
    clock shows and whether or not the backup copies go through. *)
Theorem script_keeps_session_consistent i s :
  consistent s -> consistent (snd (script lower i s)).
Proof.
  intros Hs.
  assert (H : keeps_consistent (script lower i)).
  { unfold script.
    apply keeps_consistent_bind.
    { apply keeps_consistent_unchanged. intros s0 (ws & _ & Hws & _).
      exists tt. now apply session_init_skips with (ws := ws). }
    intros _. apply keeps_consistent_bind.
    { apply keeps_consistent_unchanged. intros s0 (ws & _ & Hws & _).
      exists ws. now apply get_ss_words_ok. }
    intros ws. apply keeps_consistent_bind; [apply add_handler_keeps_consistent|].
    intros _. apply keeps_consistent_bind.
    { apply keeps_consistent_unchanged. intros s0 (ws' & _ & Hws & _).
      eexists. exact (search_handler_reads _ s0 ws' Hws). }
    intros _. apply keeps_consistent_bind; [apply delete_handler_keeps_consistent|].
    intros _. destruct (in_review i);
      [apply review_mode_keeps_consistent | apply learning_mode_keeps_consistent]. }
  now apply H.
Qed.

(** X16: In a consistent session the script's own logic never fails: a run
    ends normally, by [st.stop()], by [st.rerun()], or with the [OSError]
    of a refused backup copy; never with [KeyError], [ValueError],
    [IndexError] or [TypeError]. *)
Theorem script_only_fails_on_backup i s :
  consistent s ->
  fst (script lower i s) = Ok tt \/ fst (script lower i s) = Stop \/
  fst (script lower i s) = Rerun \/ fst (script lower i s) = Raise OSError.
Proof.
  intros Hs. destruct (script_keeps_consistent_aux i s Hs) as [_ Hb].
  destruct (fst (script lower i s)) as [[]| | |e]; auto.
  destruct e; try contradiction. auto.
Qed.

Lemma review_mode_idle env choice s (ws : Words) ls :
  ss_words s = Some ws -> ss_learned s = Some ls ->
  let out := review_mode env choice false s in
  ss_words (snd out) = Some ws /\ ss_learned (snd out) = Some ls /\
  files (snd out) = files s /\ backups (snd out) = backups s.
Proof.
  intros Hws Hls. destruct s as [sw sl f b tr]. simpl in *. subst sw sl.
  unfold review_mode, review_card, words_item, main_card.
  destruct ls as [|first rest]; run_m; [auto|].
  destruct (Dict.get (selectbox (first :: rest) first choice) ws); run_m; auto.
Qed.

(** X17: A run in which no button is clicked changes nothing but what is on the
    screen: the repository, the learned list, the store files and the
    backup directory are what they were, whatever is typed in the fields
    and whichever mode and word are selected. *)
Theorem idle_run_changes_nothing i s (ws : Words) ls :
  ss_words s = Some ws -> ss_learned s = Some ls ->
  in_add_btn i = false -> in_delete_btn i = false ->
  in_learned_btn i = false -> in_relearn_btn i = false ->
  let s' := snd (script lower i s) in
  ss_words s' = Some ws /\ ss_learned s' = Some ls /\
  files s' = files s /\ backups s' = backups s.
Proof.
  intros Hws Hls Ha Hd Hl Hr s'. subst s'. unfold script.
  rewrite (bind_ok _ _ _ _ _ (session_init_skips _ _ s ws Hws)).
  rewrite (bind_ok _ _ _ _ _ (get_ss_words_ok s ws Hws)).
  rewrite Ha, Hd, Hl, Hr.
  rewrite (bind_ok _ _ _ _ _ (add_handler_skips _ _ _ _ false s (or_introl eq_refl))).
  rewrite (bind_ok _ _ _ _ _ (search_handler_reads _ s ws Hws)).
  rewrite (bind_ok _ _ _ _ _
             (delete_handler_skips _ _ _ false s ws Hws (or_introl eq_refl))).
  destruct (in_review i).
  - apply review_mode_idle; assumption.
  - destruct (learning_mode_effect (in_env_study i) false s ws ls Hws Hls)
      as (H1 & _ & _ & H4).
    destruct (H4 eq_refl) as (H5 & H6 & H7). auto.
Qed.

End SearchFacts.

(** ** Search *)

Lemma strip_prefix_Some p s r : strip_prefix p s = Some r -> s = p +:+ r.
Proof.
  revert s. induction p as [|a p IH]; intros [|b s] H; simpl in H;
    try discriminate.
  - now injection H as <-.
  - now injection H as <-.
  - destruct (Ascii.eqb_spec a b) as [<-|]; [|discriminate].
    rewrite app_cons. f_equal. now apply IH.
Qed.

Lemma starts_with_spec p s : starts_with p s = true <-> exists r, s = p +:+ r.
Proof.
  unfold starts_with. split.
  - destruct (strip_prefix p s) as [r|] eqn:E; [|discriminate].
    intros _. exists r. now apply strip_prefix_Some.
  - intros [r ->]. now rewrite strip_prefix_app.
Qed.

(** [contains] decides occurrence. *)
Lemma contains_spec needle hay :
  contains needle hay = true <-> occurs_in needle hay.
Proof.
  unfold occurs_in. split.
  - induction hay as [|c r IH]; simpl; rewrite orb_true_iff.
    + intros [H|H]; [|discriminate].
      apply starts_with_spec in H as [post H]. now exists EmptyString, post.
    + intros [H|H].
      * apply starts_with_spec in H as [post H]. now exists EmptyString, post.
      * destruct (IH H) as (pre & post & ->). now exists (String c pre), post.
  - intros (pre & post & ->). induction pre as [|c pre IH].
    + change (EmptyString +:+ needle +:+ post) with (needle +:+ post).
      assert (H : starts_with needle (needle +:+ post) = true)
        by (apply starts_with_spec; eauto).
      destruct (needle +:+ post); simpl; now rewrite H.
    + rewrite app_cons. simpl. rewrite IH. apply orb_true_r.
Qed.

Lemma sublist_List_filter {A} (f : A -> bool) l : sublist (List.filter f l) l.
Proof.
  induction l as [|x l IH]; simpl; [constructor|].
  destruct (f x); now constructor.
Qed.

Section SearchTheorem.

Variable lower : string -> string.

(** X18: A search with a non-empty query finds exactly the entries of the
    repository whose word or whose meaning, both put in lower case,
    contains the query in lower case; the memo is not searched.  The
    entries found come in the order of the repository, and the search
    changes nothing.  With the search box empty there is no search. *)
Theorem search_finds_word_or_meaning query s (ws : Words) :
  ss_words s = Some ws ->
  (query = "" -> search_handler lower query s = (Ok None, s)) /\
  (query <> "" ->
   search_handler lower query s = (Ok (Some (search_results lower query ws)), s)) /\
  sublist (search_results lower query ws) ws /\
  (forall w e,
     In (w, e) (search_results lower query ws) <->
     In (w, e) ws /\
     (occurs_in (lower query) (lower w) \/
      occurs_in (lower query) (lower (meaning e)))).
Proof.
  intros Hws. split; [|split; [|split]].
  - intros ->. now rewrite (search_handler_reads lower "" s ws Hws).
  - intros Hq. rewrite (search_handler_reads lower query s ws Hws).
    now rewrite (truthy_true query Hq).
  - apply sublist_List_filter.
  - intros w e. unfold search_results. rewrite filter_In. simpl.
    rewrite orb_true_iff, !contains_spec. reflexivity.
Qed.

End SearchTheorem.

Lemma search_finds_witness :
  search_handler lower_ascii "CAN" s_two = (Ok (Some [("dog", dog)]), s_two) /\
  In ("dog", dog) (search_results lower_ascii "CAN" [("cat", cat); ("dog", dog)]).
Proof.
  destruct (search_finds_word_or_meaning lower_ascii "CAN" s_two
              [("cat", cat); ("dog", dog)] eq_refl) as (_ & H2 & _ & H4).
  split.
  - rewrite H2 by discriminate. reflexivity.
  - apply H4. split; [right; now left|]. right.
    exists "a ", "ine". reflexivity.
Defined.

(** ** Witnesses for the whole-run theorems *)

Lemma consistent_s_two : consistent s_two.
Proof.
  exists [("cat", cat); ("dog", dog)], ["cat"].
  split; [reflexivity|]. split; [reflexivity|]. split; [|split].
  - apply NoDup_ListNoDup. repeat constructor; simpl; intros H;
      repeat (destruct H as [H|H]; try discriminate); exact H.
  - apply NoDup_singleton.
  - intros w [<-|[]]. simpl. now left.
Qed.

Lemma script_keeps_session_consistent_witness :
  consistent
    (snd (script lower_ascii
            (mkInputs resp_cat env_ok env_ok env_refused env_ok env_ok
                      "emu" "a bird" "" true "" 0 true false true 0 false)
            s_two)).
Proof.
  apply (script_keeps_session_consistent lower_ascii). exact consistent_s_two.
Defined.

Lemma script_only_fails_on_backup_witness :
  let out := script lower_ascii
               (mkInputs resp_cat env_ok env_ok env_refused env_ok env_ok
                         "emu" "a bird" "" true "" 0 true false true 0 false)
               s_two in
  fst out = Ok tt \/ fst out = Stop \/ fst out = Rerun \/ fst out = Raise OSError.
Proof.
  apply (script_only_fails_on_backup lower_ascii). exact consistent_s_two.
Defined.

Lemma idle_run_changes_nothing_witness :
  let s' := snd (script lower_ascii (idle_inputs true "cat") s_orphan) in
  ss_words s' = Some [("cat", cat)] /\ ss_learned s' = Some ["dog"] /\
  files s' = files s_orphan /\ backups s' = backups s_orphan.
Proof.
  apply (idle_run_changes_nothing lower_ascii (idle_inputs true "cat") s_orphan
           [("cat", cat)] ["dog"]); reflexivity.
Defined.

(** X19: A sync that failed is not tried again in the same session: the failed
    initialisation has already put the loaded repository in the session
    state, so the initialisation block of every later run is skipped and
    the session goes on with the local words, whatever the remote table
    would answer then. *)
Theorem failed_sync_is_not_retried resp env s :
  ss_words s = None ->
  fst (load_session s) = Ok tt ->
  (forall rows, fst (fetch_notion_rows resp s) <> Ok rows) ->
  let s1 := snd (session_init resp env s) in
  ss_words s1 = ss_words (snd (load_session s)) /\
  is_Some (ss_words s1) /\
  forall resp' env', session_init resp' env' s1 = (Ok tt, s1).
Proof.
  intros Hnone Hload Hfail s1.
  destruct (load_session_spec s) as (_ & _ & _ & _ & Hok).
  destruct (Hok Hload) as (ws & ls & Hws & _).
  assert (Hout : session_init resp env s =
                 bind load_session (fun _ => merge_sync resp env) s).
  { unfold session_init. unfold bind at 1. unfold gets. now rewrite Hnone. }
  destruct (load_session s) as [r l] eqn:El. simpl in *. subst r.
  rewrite (bind_ok _ _ _ _ _ El) in Hout.
  assert (H1 : ss_words s1 = Some ws).
  { subst s1. rewrite Hout.
    destruct (fetch_uniform resp) as [[rows Hr] | [[e Hr] | [a [-> Hr]]]].
    - exfalso. apply (Hfail rows). now rewrite Hr.
    - now rewrite (merge_sync_fetch_raises resp env l ws e Hws Hr).
    - now rewrite (merge_sync_api_error a env l ws Hws). }
  split; [congruence|]. split; [rewrite H1; eauto|].
  intros resp' env'. now apply session_init_skips with (ws := ws).
Qed.

Lemma failed_sync_is_not_retried_witness :
  let s := mkState None None (files s_two) ∅ [] in
  let s1 := snd (session_init RespOther env_ok s) in
  is_Some (ss_words s1) /\ session_init resp_cat env_ok s1 = (Ok tt, s1).
Proof.
  destruct (failed_sync_is_not_retried RespOther env_ok
              (mkState None None (files s_two) ∅ []) eq_refl eq_refl)
    as (_ & H2 & H3).
  - intros rows. discriminate.
  - split; [exact H2 | apply H3].
Defined.

(** ** The trim on its own *)

Lemma glob_sorted_unlink_take stem_ (b : gmap string json) k :
  glob_sorted stem_ (unlink_all (take k (glob_sorted stem_ b)) b) =
  drop k (glob_sorted stem_ b).
Proof.
  destruct (glob_sorted_spec stem_ b) as (Hs & Hn & Hl).
  set (l := glob_sorted stem_ b) in *.
  assert (Hsplit : take k l ++ drop k l = l) by apply take_drop.
  assert (Hss : StronglySorted String.le (take k l ++ drop k l)).
  { rewrite Hsplit. exact (Sorted_StronglySorted String.le _ Hs). }
  assert (Hnd : NoDup (take k l ++ drop k l)) by now rewrite Hsplit.
  apply NoDup_app in Hnd as (_ & Hdisj & Hnd2).
  apply glob_sorted_unique.
  - apply StronglySorted_Sorted. now apply StronglySorted_app_1_r in Hss.
  - exact Hnd2.
  - intros n. rewrite lookup_unlink_all.
    destruct (decide (n ∈ take k l)) as [Hin|Hnin].
    + split; [intros Hd; exfalso; now apply (Hdisj n) | intros [[x Hx] _]; discriminate].
    + rewrite <- Hl. rewrite <- Hsplit at 2. rewrite elem_of_app. tauto.
Qed.

(** X20: [_trim_backups stem keep] never fails and touches only the backup
    files that match the pattern of [stem].  For a positive [keep] it
    leaves the [keep] names that sort last and unlinks the others; for
    [keep = 0] the slice [snaps[:-0]] is empty and it unlinks nothing. *)
Theorem trim_backups_keeps_last stem_ keep s :
  let out := _trim_backups stem_ keep s in
  fst out = Ok tt /\
  files (snd out) = files s /\
  ss_words (snd out) = ss_words s /\ ss_learned (snd out) = ss_learned s /\
  (keep = 0 -> backups (snd out) = backups s) /\
  (0 < keep ->
   glob_sorted stem_ (backups (snd out)) =
   lastn keep (glob_sorted stem_ (backups s))) /\
  (forall n, glob_match stem_ n = false ->
             backups (snd out) !! n = backups s !! n).
Proof.
  cbv zeta.
  assert (E : _trim_backups stem_ keep s =
              for_each (slice_until_neg keep (glob_sorted stem_ (backups s))) unlink s)
    by reflexivity.
  rewrite E, for_each_unlink. simpl.
  split; [reflexivity|]. split; [reflexivity|]. split; [reflexivity|].
  split; [reflexivity|]. split; [|split].
  - intros ->. reflexivity.
  - intros Hk. destruct keep as [|k]; [lia|]. simpl slice_until_neg.
    unfold lastn. apply glob_sorted_unlink_take.
  - intros n Hn. rewrite lookup_unlink_all.
    destruct (decide (n ∈ slice_until_neg keep (glob_sorted stem_ (backups s))))
      as [Hin|_]; [|reflexivity].
    exfalso. assert (Hin' : n ∈ glob_sorted stem_ (backups s)).
    { destruct keep as [|k]; [now apply elem_of_nil in Hin|]. simpl in Hin.
      rewrite <- (take_drop (length (glob_sorted stem_ (backups s)) - S k)
                            (glob_sorted stem_ (backups s))).
      apply elem_of_app. now left. }
    apply (glob_sorted_spec stem_ (backups s)) in Hin' as [_ Hm]. congruence.
Qed.

Lemma trim_backups_keeps_last_witness :
  let s := snd (saves WORDS_FILE seven_saves s_two) in
  glob_sorted "words" (backups (snd (_trim_backups "words" 2 s))) =
    ["words_2024-01-02_030405.json"; "words_2024-01-02_030406.json"] /\
  backups (snd (_trim_backups "words" 0 s)) = backups s.
Proof.
  destruct (trim_backups_keeps_last "words" 2 (snd (saves WORDS_FILE seven_saves s_two)))
    as (_ & _ & _ & _ & _ & H2 & _).
  destruct (trim_backups_keeps_last "words" 0 (snd (saves WORDS_FILE seven_saves s_two)))
    as (_ & _ & _ & _ & H0 & _).
  split; [|now apply H0].
  cbv zeta. rewrite H2 by lia. vm_compute. reflexivity.
Defined.

(** ** Two saves within one second *)

Lemma glob_sorted_insert_existing stem_ (b : gmap string json) n v :
  is_Some (b !! n) -> glob_sorted stem_ (<[n := v]> b) = glob_sorted stem_ b.
Proof.
  intros Hn. destruct (glob_sorted_spec stem_ b) as (Hs & Hnd & Hl).
  apply glob_sorted_unique; [exact Hs | exact Hnd |].
  intros x. rewrite Hl. destruct (decide (x = n)) as [->|Hne].
  - rewrite lookup_insert_eq. split; intros [_ H]; split; eauto.
  - now rewrite lookup_insert_ne by congruence.
Qed.

(** X21: Two saves of a store within the same second share one snapshot name:
    the second save writes the content the first save stored over the
    snapshot the first save made, adds no snapshot and unlinks none.  The
    content the store had before the first save is then in no snapshot of
    these two saves. *)
Theorem same_second_save_overwrites_snapshot env1 env2 p d1 d2_ old s :
  files s !! path_name p = Some old ->
  copy_ok env1 = true -> copy_ok env2 = true -> now env2 = now env1 ->
  (forall x, x ∈ glob_sorted (stem p) (backups s) ->
     String.compare x (snap_name (stem p) (now env1)) = Lt) ->
  let s1 := snd (_json_dump env1 p d1 s) in
  let s2 := snd (_json_dump env2 p d2_ s1) in
  backups s1 !! snap_name (stem p) (now env1) = Some old /\
  backups s2 = <[snap_name (stem p) (now env1) := d1]> (backups s1) /\
  glob_sorted (stem p) (backups s2) = glob_sorted (stem p) (backups s1).
Proof.
  intros Hf Hc1 Hc2 Hnow Hlt. cbv zeta.
  rewrite (json_dump_existing env1 p d1 old s Hf Hc1). simpl.
  set (snap := snap_name (stem p) (now env1)) in *.
  set (b1 := backups_after (stem p) (now env1) old (backups s)).
  assert (Hsnap : b1 !! snap = Some old).
  { unfold b1, backups_after. cbv zeta. fold snap. rewrite lookup_unlink_all.
    rewrite decide_False; [apply lookup_insert_eq|].
    apply trimmed_spares_newest; [apply glob_match_snap_name | exact Hlt]. }
  assert (Hlen : length (glob_sorted (stem p) b1) <= 5).
  { unfold b1, backups_after. cbv zeta. rewrite glob_sorted_trim.
    apply length_lastn_le. }
  set (s1 := mkState _ _ _ b1 _).
  assert (Hf1 : files s1 !! path_name p = Some d1) by apply lookup_insert_eq.
  rewrite (json_dump_existing env2 p d2_ d1 s1 Hf1 Hc2). simpl.
  rewrite Hnow. fold snap.
  assert (Hsame : glob_sorted (stem p) (<[snap := d1]> b1) = glob_sorted (stem p) b1).
  { apply glob_sorted_insert_existing. rewrite Hsnap. eauto. }
  assert (Hafter : backups_after (stem p) (now env1) d1 b1 = <[snap := d1]> b1).
  { unfold backups_after, trimmed. cbv zeta. fold snap. rewrite Hsame. simpl.
    replace (length (glob_sorted (stem p) b1) - 5) with 0 by lia. reflexivity. }
  split; [exact Hsnap|]. split; [exact Hafter|]. now rewrite Hafter.
Qed.

Lemma same_second_save_witness :
  let s1 := snd (_json_dump env_ok WORDS_FILE (JObject [("cat", cat)]) s_two) in
  let s2 := snd (_json_dump env_ok WORDS_FILE (JObject []) s1) in
  backups s1 !! "words_2024-01-02_030405.json" = Some (JObject [("cat", cat); ("dog", dog)]) /\
  backups s2 = <["words_2024-01-02_030405.json" := JObject [("cat", cat)]]> (backups s1).
Proof.
  destruct (same_second_save_overwrites_snapshot env_ok env_ok WORDS_FILE
              (JObject [("cat", cat)]) (JObject [])
              (JObject [("cat", cat); ("dog", dog)]) s_two
              eq_refl eq_refl eq_refl eq_refl) as (H1 & H2 & _).
  - intros x Hx. vm_compute in Hx. now apply elem_of_nil in Hx.
  - split; [exact H1 | exact H2].
Defined.

(** ** The disk mirrors the session *)

Lemma keeps_bind {A B} (P : State -> Prop) (m : M A) (f : A -> M B) :
  keeps P m -> (forall a, keeps P (f a)) -> keeps P (bind m f).
Proof.
  intros Hm Hf s Hs. unfold bind. specialize (Hm s Hs).
  destruct (m s) as [[a| | |e] s']; simpl in *; auto.
  now apply Hf.
Qed.

Lemma keeps_unchanged {A} (P : State -> Prop) (m : M A) :
  (forall s, P s -> snd (m s) = s) -> keeps P m.
Proof. intros H s Hs. now rewrite H. Qed.

Lemma add_handler_keeps_mirrored env w m memo_ clicked :
  copy_ok env = true -> keeps mirrored (add_handler env w m memo_ clicked).
Proof.
  intros Hc s Hs.
  destruct clicked; [|now rewrite add_handler_skips by auto].
  destruct (string_dec w "") as [->|Hw]; [now rewrite add_handler_skips by auto|].
  destruct (string_dec m "") as [->|Hm]; [now rewrite add_handler_skips by auto|].
  destruct Hs as (ws & ls & Hws & Hls & Hfw & Hfl).
  unfold add_handler, save_words.
  rewrite (truthy_true w Hw), (truthy_true m Hm). simpl.
  destruct s as [sw sl f b tr]. simpl in *. subst sw sl.
  destruct (json_dump_ok env WORDS_FILE (JObject (Dict.set w (mkEntry m memo_) ws))
              (mkState (Some (Dict.set w (mkEntry m memo_) ws)) (Some ls) f b tr) Hc)
    as (b' & evs & _ & E).
  run_m. rewrite E. run_m.
  exists (Dict.set w (mkEntry m memo_) ws), ls. simpl.
  repeat split; [apply lookup_insert_eq|].
  rewrite lookup_insert_ne by (apply not_eq_sym, names_differ). exact Hfl.
Qed.

Lemma delete_handler_keeps_mirrored env1 env2 target clicked :
  copy_ok env1 = true -> copy_ok env2 = true ->
  keeps mirrored (delete_handler env1 env2 target clicked).
Proof.
  intros Hc1 Hc2 s Hs. pose proof Hs as (ws & ls & Hws & Hls & Hfw & Hfl).
  destruct clicked;
    [|now rewrite (delete_handler_skips env1 env2 target false s ws Hws) by auto].
  destruct target as [t|];
    [|now rewrite (delete_handler_skips env1 env2 None true s ws Hws) by auto].
  destruct (in_dec string_dec t (Dict.keys ws)) as [Hin|Hnin];
    [|now rewrite (delete_handler_skips env1 env2 (Some t) true s ws Hws) by eauto].
  assert (Hmem : Dict.mem t ws = true) by now apply mem_keys.
  destruct (get_of_key _ _ Hin) as [v Hget].
  set (ws' := Dict.remove t ws).
  set (ls' := List.filter (fun w => negb (String.eqb w t)) ls).
  unfold delete_handler, save_words, save_learned. destruct s as [sw sl f b tr].
  simpl in *. subst sw sl. unfold Dict.pop. run_m.
  rewrite Hmem. simpl. unfold Dict.pop. rewrite Hget. run_m.
  match goal with
  | |- context [_json_dump env1 WORDS_FILE ?d ?st] =>
      destruct (json_dump_ok env1 WORDS_FILE d st Hc1) as (b1 & ev1 & _ & E1)
  end.
  rewrite E1. run_m.
  match goal with
  | |- context [_json_dump env2 LEARNED_FILE ?d ?st] =>
      destruct (json_dump_ok env2 LEARNED_FILE d st Hc2) as (b2 & ev2 & _ & E2)
  end.
  rewrite E2. run_m.
  exists ws', ls'. simpl. repeat split.
  - rewrite lookup_insert_ne by exact names_differ. apply lookup_insert_eq.
  - apply lookup_insert_eq.
Qed.

Lemma learning_mode_keeps_mirrored env btn :
  copy_ok env = true -> keeps mirrored (learning_mode env btn).
Proof.
  intros Hc s (ws & ls & Hws & Hls & Hfw & Hfl).
  destruct s as [sw sl f b tr]. simpl in *. subst sw sl.
  unfold learning_mode, words_item, main_card, save_learned. run_m.
  destruct (queue ws ls) as [|cur q] eqn:Hq; run_m.
  - exists ws, ls. auto.
  - destruct (Dict.get cur ws) as [e|]; run_m; [|exists ws, ls; auto].
    destruct btn; run_m; [|exists ws, ls; auto].
    match goal with
    | |- context [_json_dump env LEARNED_FILE ?d ?st] =>
        destruct (json_dump_ok env LEARNED_FILE d st Hc) as (b2 & ev2 & _ & E2)
    end.
    rewrite E2. run_m. exists ws, (ls ++ [cur]). simpl. repeat split.
    + rewrite lookup_insert_ne by exact names_differ. exact Hfw.
    + apply lookup_insert_eq.
Qed.

Lemma review_mode_keeps_mirrored env choice btn :
  copy_ok env = true -> keeps mirrored (review_mode env choice btn).
Proof.
  intros Hc s (ws & ls & Hws & Hls & Hfw & Hfl).
  destruct s as [sw sl f b tr]. simpl in *. subst sw sl.
  destruct ls as [|first rest].
  - unfold review_mode. run_m. exists ws, []. auto.
  - set (W := selectbox (first :: rest) first choice).
    assert (HW : In W (first :: rest)) by apply selectbox_in.
    destruct (list_remove_present W (first :: rest) HW) as (l' & Hrm & _ & _).
    unfold review_mode, review_card, words_item, main_card, save_learned.
    run_m. fold W.
    destruct (Dict.get W ws) as [e|]; run_m; [|exists ws, (first :: rest); auto].
    destruct btn; run_m; [|exists ws, (first :: rest); auto].
    fold W. rewrite Hrm. run_m.
    match goal with
    | |- context [_json_dump env LEARNED_FILE ?d ?st] =>
        destruct (json_dump_ok env LEARNED_FILE d st Hc) as (b2 & ev2 & _ & E2)
    end.
    rewrite E2. run_m. exists ws, l'. simpl. repeat split.
    + rewrite lookup_insert_ne by exact names_differ. exact Hfw.
    + apply lookup_insert_eq.
Qed.

Section Mirror.

Variable lower : string -> string.

(** X22: Once the session is initialised and the two store files hold what the
    session holds, this stays so after every run whose backup copies go
    through, whatever the operator does and however the run ends: the
    handlers write the collection they changed before anything else can
    happen.  (The initialisation itself is where disk and session can
    part, since the sync writes the remote dictionary alone.) *)
Theorem script_keeps_disk_mirrored i s :
  copies_ok i -> mirrored s -> mirrored (snd (script lower i s)).
Proof.
  intros (_ & Ha & Hd1 & Hd2 & Hm). revert s.
  change (keeps mirrored (script lower i)). unfold script.
  apply keeps_bind.
  { apply keeps_unchanged. intros s (ws & _ & Hws & _).
    now rewrite (session_init_skips _ _ s ws Hws). }
  intros _. apply keeps_bind.
  { apply keeps_unchanged. intros s (ws & _ & Hws & _).
    now rewrite (get_ss_words_ok s ws Hws). }
  intros ws. apply keeps_bind; [now apply add_handler_keeps_mirrored|].
  intros _. apply keeps_bind.
  { apply keeps_unchanged. intros s (ws' & _ & Hws & _).
    now rewrite (search_handler_reads lower _ s ws' Hws). }
  intros _. apply keeps_bind; [now apply delete_handler_keeps_mirrored|].
  intros _. destruct (in_review i).
  - now apply review_mode_keeps_mirrored.
  - now apply learning_mode_keeps_mirrored.
Qed.

End Mirror.

Lemma script_keeps_disk_mirrored_witness :
  mirrored
    (snd (script lower_ascii
            (mkInputs resp_cat env_ok env_ok env_ok env_ok env_ok
                      "emu" "a bird" "" true "" 0 true false true 0 false)
            s_two)).
Proof.
  apply (script_keeps_disk_mirrored lower_ascii).
  - repeat split; reflexivity.
  - exists [("cat", cat); ("dog", dog)], ["cat"]. repeat split; reflexivity.
Defined.
